(** * Gilbarco two-wire pump gateway: codec, scanner, aggregator and hub

    A shallow embedding of [scanner.py], [models.py], [ws_pumps.py],
    [trash.py] and the computing parts of [main.py], and the properties
    of the specification and of the code stated over it.

    Conventions of the embedding:
    - Python [int] is [Z]; [float] values are read as the rationals they
      denote ([Qc], exact arithmetic); [bytes] is [list byte];
    - a [dict] keyed by pump id is a [gmap Z _];
    - a function that can [raise] returns a [result];
    - the [logger] calls of the scanner append records to an explicit log;
      the logger of [ws_pumps.py] is set to [ERROR] and its records are
      left out;
    - [time.sleep] and [asyncio.sleep] have no effect on the data and are
      left out. *)

From Stdlib Require Import ZArith List Lia Bool.
From Stdlib Require Import QArith Qcanon Qround Lqa.
From Stdlib Require Import Strings.Byte Strings.Ascii.
From stdpp Require Import base numbers option list strings gmap fin_maps.

Local Open Scope Z_scope.

(** ** Exceptions *)

(** The exceptions of the codec: its [ValueError]s, told apart by their
    message, and the [IndexError] of an index past the end. *)
Inductive PyError : Type :=
  | InvalidPumpId (pump_id : Z)
  | InvalidPumpNibble (nibble : Z)
  | InvalidStatusResponseLength
  | BytesOutOfRange (v : Z)
  | IndexError.

Inductive result (A : Type) : Type :=
  | Ok (a : A)
  | Raise (e : PyError).
Arguments Ok {A} a.
Arguments Raise {A} e.

Definition bind {A B} (r : result A) (k : A -> result B) : result B :=
  match r with
  | Ok a => k a
  | Raise e => Raise e
  end.

Notation "'let!' x ':=' r 'in' k" := (bind r (fun x => k))
  (at level 10, x pattern, r at level 100, k at level 200, only parsing).

Definition raises {A} (r : result A) : Prop :=
  match r with Ok _ => False | Raise _ => True end.

(** ** scanner.py *)

Module Scanner.

Definition CMD_STATUS : Z := 0x0.
Definition ADDRESS_RANGE : Z * Z := (1, 16).

Inductive PumpStatus : Type :=
  | DATA_ERROR | OFF | CALL | AUTHORIZED | BUSY | PEOT | FEOT | STOP | OFFLINE.

#[global] Instance PumpStatus_eq_dec : EqDecision PumpStatus.
Proof. solve_decision. Defined.

(** [STATUS_CODES]: the names used in the log lines. *)
Definition STATUS_CODES : gmap Z string :=
  list_to_map
    [(0x0, "DATA_ERROR"); (0x6, "OFF"); (0x7, "CALL"); (0x8, "AUTHORIZED");
     (0x9, "BUSY"); (0xA, "PEOT"); (0xB, "FEOT"); (0xC, "STOP")]%string.

Definition pump_id_to_nibble (pump_id : Z) : result Z :=
  if pump_id =? 16 then Ok 0
  else if (1 <=? pump_id) && (pump_id <=? 15) then Ok pump_id
  else Raise (InvalidPumpId pump_id).

Definition nibble_to_pump_id (nibble : Z) : result Z :=
  if nibble =? 0 then Ok 16
  else if (1 <=? nibble) && (nibble <=? 15) then Ok nibble
  else Raise (InvalidPumpNibble nibble).

(** [bytes([v])]: a [ValueError] unless [0 <= v < 256]. *)
Definition bytes1 (v : Z) : result (list byte) :=
  if (0 <=? v) && (v <? 256) then
    match Byte.of_N (Z.to_N v) with
    | Some b => Ok [b]
    | None => Raise (BytesOutOfRange v)
    end
  else Raise (BytesOutOfRange v).

(** [response[0]]: a byte read as an integer in [0, 255]. *)
Definition int_of_byte (b : byte) : Z := Z.of_N (Byte.to_N b).

Definition build_status_command (pump_id : Z) : result (list byte) :=
  let! pump_nibble := pump_id_to_nibble pump_id in
  let command := Z.lor (Z.shiftl CMD_STATUS 4) pump_nibble in
  bytes1 command.

(** [response[0]] *)
Definition item0 (response : list byte) : result Z :=
  match response with
  | b :: _ => Ok (int_of_byte b)
  | [] => Raise IndexError
  end.

Definition parse_status_response (response : list byte) : result (Z * Z) :=
  if negb (length response =? 1)%nat then Raise InvalidStatusResponseLength
  else
    let! word := item0 response in
    let status := Z.land (Z.shiftr word 4) 0xF in
    let pump_nibble := Z.land word 0xF in
    let! pump_id := nibble_to_pump_id pump_nibble in
    Ok (pump_id, status).

Definition status_map : gmap Z PumpStatus :=
  list_to_map
    [(0x0, DATA_ERROR); (0x6, OFF); (0x7, CALL); (0x8, AUTHORIZED);
     (0x9, BUSY); (0xA, PEOT); (0xB, FEOT); (0xC, STOP)].

(** [status_map.get(status_code, PumpStatus.OFFLINE)] *)
Definition status_code_to_enum (status_code : Z) : PumpStatus :=
  default OFFLINE (status_map !! status_code).

(** One hexadecimal digit in upper case: the code of ['0'] is 48 and
    that of ['A'] is 65. *)
Definition hex_digit (d : Z) : ascii :=
  ascii_of_N (Z.to_N (if d <? 10 then 48 + d else 55 + d)).

(** [f"{b:02X}"] for a byte [b]. *)
Definition format_02X (b : byte) : string :=
  let w := int_of_byte b in
  String (hex_digit (w / 16)) (String (hex_digit (w mod 16)) EmptyString).

(** [" ".join(f"{b:02X}" for b in data)] *)
Definition format_hex_bytes (data : list byte) : string :=
  String.concat " " (map format_02X data).

(** *** The scan loop of [main] *)

(** What [ser.read(1)] gives: the bytes read (none on a timeout), or an
    exception of the port. *)
Inductive ReadOutcome : Type :=
  | ReadBytes (data : list byte)
  | ReadFails.

(** The serial port as [main] uses it, for an iteration in which
    [write], [flush] and [reset_input_buffer] return: what they raise
    leaves the loop, and is in [RaisingPort] and [probe_raising] below,
    of which [probe] is the case of a port whose calls return. *)
Class SerialPort (P : Type) : Type := {
  ser_write : P -> list byte -> P;
  ser_flush : P -> P;
  ser_read : P -> nat -> ReadOutcome * P;
  ser_reset_input_buffer : P -> P
}.

Inductive Level : Type := DEBUG | INFO | WARNING | ERROR.

(** One constructor per [logger] call of the loop body. *)
Inductive LogRecord : Type :=
  | LogTesting (pump_address : Z)
  | LogBuiltCommand (command : list byte)
  | LogCommandBreakdown (pump_address : Z)
  | LogSending (pump_address : Z)
  | LogTX (command : list byte)
  | LogRX (response : list byte)
  | LogResponseReceived (response_pump_id : Z)
  | LogStatusCode (status_code : Z) (name : string)
  | LogStatus (status : PumpStatus)
  | LogIdMatches
  | LogAdded (pump_address : Z)
  | LogIsOffline (pump_address : Z)
  | LogIdMismatch (expected got : Z)
  | LogParseFailed (e : PyError)
  | LogRawResponse (response : list byte)
  | LogNoResponse (pump_address : Z)
  | LogReadError.

Definition level_of (r : LogRecord) : Level :=
  match r with
  | LogCommandBreakdown _ | LogTX _ | LogRX _ => DEBUG
  | LogIdMismatch _ _ => WARNING
  | LogParseFailed _ | LogRawResponse _ | LogReadError => ERROR
  | _ => INFO
  end.

Record DiscoveredPump : Type := {
  address : Z;
  status : PumpStatus;
  status_code : Z;
  response_raw : list byte
}.

Record ScanState (P : Type) : Type := {
  ser : P;
  discovered_pumps : list DiscoveredPump;
  log : list LogRecord
}.
Arguments ser {P} _.
Arguments discovered_pumps {P} _.
Arguments log {P} _.

Section Scan.
Context {P : Type} `{SerialPort P}.

Definition emit (recs : list LogRecord) (st : ScanState P) : ScanState P :=
  {| ser := ser st; discovered_pumps := discovered_pumps st;
     log := log st ++ recs |}.

Definition with_ser (f : P -> P) (st : ScanState P) : ScanState P :=
  {| ser := f (ser st); discovered_pumps := discovered_pumps st;
     log := log st |}.

Definition append_pump (d : DiscoveredPump) (st : ScanState P) : ScanState P :=
  {| ser := ser st; discovered_pumps := discovered_pumps st ++ [d];
     log := log st |}.

(** The inner [try] of the loop body: what is done with a non-empty
    [response]. Every exception of the parse is caught and logged. *)
Definition handle_response (pump_address : Z) (response : list byte)
    (st : ScanState P) : ScanState P :=
  let st := emit [LogRX response] st in
  match parse_status_response response with
  | Ok (response_pump_id, status_code) =>
      let status := status_code_to_enum status_code in
      let st :=
        emit [LogResponseReceived response_pump_id;
              LogStatusCode status_code
                (default "UNKNOWN"%string (STATUS_CODES !! status_code));
              LogStatus status] st in
      if response_pump_id =? pump_address then
        let st := emit [LogIdMatches] st in
        if decide (status <> OFFLINE) then
          emit [LogAdded pump_address]
            (append_pump
               {| address := pump_address; status := status;
                  status_code := status_code; response_raw := response |} st)
        else emit [LogIsOffline pump_address] st
      else emit [LogIdMismatch pump_address response_pump_id] st
  | Raise e => emit [LogParseFailed e; LogRawResponse response] st
  end.

(** [ser.write(command); ser.flush()]: the port the answer is read from. *)
Definition port_after_write (st : ScanState P) (command : list byte) : P :=
  ser_flush (ser_write (ser st) command).

(** One iteration of [for pump_address in range(...)], the calls of the
    port other than [read] returning. An exception of
    [build_status_command] is not caught inside the loop: it ends the scan. *)
Definition probe (st : ScanState P) (pump_address : Z) : result (ScanState P) :=
  let st := emit [LogTesting pump_address] st in
  let! command := build_status_command pump_address in
  let st := emit [LogBuiltCommand command; LogCommandBreakdown pump_address;
                  LogSending pump_address] st in
  let st := with_ser (fun _ => port_after_write st command) st in
  let st := emit [LogTX command] st in
  let '(outcome, p) := ser_read (ser st) 1 in
  let st := with_ser (fun _ => p) st in
  let st :=
    match outcome with
    | ReadBytes response =>
        match response with
        | _ :: _ => handle_response pump_address response st
        | [] => emit [LogNoResponse pump_address] st
        end
    | ReadFails => emit [LogReadError] st
    end in
  Ok (with_ser ser_reset_input_buffer st).

Fixpoint for_each (addresses : list Z) (st : ScanState P) : result (ScanState P) :=
  match addresses with
  | [] => Ok st
  | a :: rest => let! st' := probe st a in for_each rest st'
  end.

(** [range(lo, hi)] *)
Definition py_range (lo hi : Z) : list Z :=
  map (fun i => lo + Z.of_nat i) (seq 0 (Z.to_nat (hi - lo))).

(** The loop of [main], from an open port and [discovered_pumps = []]. *)
Definition scan (port : P) : result (ScanState P) :=
  for_each (py_range (fst ADDRESS_RANGE) (snd ADDRESS_RANGE + 1))
    {| ser := port; discovered_pumps := []; log := [] |}.

End Scan.

(** A simulated bus for examples: a pump answers the command just written
    with [reply command]; the answer waits in the input buffer. *)
Record ReplyBus : Type := {
  reply : list byte -> list byte;
  input_buffer : list byte
}.

#[global] Instance ReplyBus_port : SerialPort ReplyBus := {
  ser_write b command :=
    {| reply := reply b; input_buffer := input_buffer b ++ reply b command |};
  ser_flush b := b;
  ser_read b n :=
    (ReadBytes (firstn n (input_buffer b)),
     {| reply := reply b; input_buffer := skipn n (input_buffer b) |});
  ser_reset_input_buffer b := {| reply := reply b; input_buffer := [] |}
}.

(** A bus on which pump 1 answers its poll (OFF), the poll of pump 3 is
    answered by a frame that echoes address 7 (BUSY), and nobody else
    answers. *)
Definition bus_3_echoes_7 : ReplyBus :=
  {| reply command :=
       match command with
       | [x01] => [x61]
       | [x03] => [x97]
       | _ => []
       end;
     input_buffer := [] |}.

(** What holds of an entry of [discovered_pumps]: its address is one of
    the bus, its status is not OFFLINE and is the status of its code, and
    its raw response parses to its address and code. *)
Definition well_formed (d : DiscoveredPump) : Prop :=
  1 <= address d <= 16
  /\ status d <> OFFLINE
  /\ status d = status_code_to_enum (status_code d)
  /\ parse_status_response (response_raw d) = Ok (address d, status_code d).

(** A bus that echoes every command back, as a wire looped on itself. *)
Definition loopback_bus : ReplyBus :=
  {| reply command := command; input_buffer := [] |}.

(** *** The loop with the exceptions of the port *)

(** [main] catches what [ser.read] raises. What [ser.write], [ser.flush]
    and [ser.reset_input_buffer] raise it does not catch, no more than
    the [ValueError] of [build_status_command]: these calls are under
    the outer [try] only, which has a [finally] and no [except], so the
    exception leaves the loop and the function. *)
Inductive Abort : Type :=
  | CodecError (e : PyError)
  | PortError (what : string).

(** The serial port with the exceptions of its calls: [write], [flush]
    and [reset_input_buffer] give the port after the call, or raise. *)
Class RaisingPort (P : Type) : Type := {
  port_write : P -> list byte -> string + P;
  port_flush : P -> string + P;
  port_read : P -> nat -> ReadOutcome * P;
  port_reset_input_buffer : P -> string + P
}.

(** How the loop ends: after its last iteration, or by an exception,
    with the state reached when it was raised. *)
Inductive Scan (P : Type) : Type :=
  | Finished (st : ScanState P)
  | Aborted (e : Abort) (st : ScanState P).
Arguments Finished {P} st.
Arguments Aborted {P} e st.

Section RaisingScan.
Context {P : Type} `{RaisingPort P}.

(** One iteration of the loop of [main], as [probe], each call of the
    port being able to raise. *)
Definition probe_raising (st : ScanState P) (pump_address : Z) : Scan P :=
  let st := emit [LogTesting pump_address] st in
  match build_status_command pump_address with
  | Raise e => Aborted (CodecError e) st
  | Ok command =>
      let st := emit [LogBuiltCommand command; LogCommandBreakdown pump_address;
                      LogSending pump_address] st in
      match port_write (ser st) command with
      | inl what => Aborted (PortError what) st
      | inr written =>
          match port_flush written with
          | inl what => Aborted (PortError what) (with_ser (fun _ => written) st)
          | inr flushed =>
              let st := emit [LogTX command] (with_ser (fun _ => flushed) st) in
              let '(outcome, p) := port_read (ser st) 1 in
              let st := with_ser (fun _ => p) st in
              let st :=
                match outcome with
                | ReadBytes response =>
                    match response with
                    | _ :: _ => handle_response pump_address response st
                    | [] => emit [LogNoResponse pump_address] st
                    end
                | ReadFails => emit [LogReadError] st
                end in
              match port_reset_input_buffer (ser st) with
              | inl what => Aborted (PortError what) st
              | inr reset => Finished (with_ser (fun _ => reset) st)
              end
          end
      end
  end.

Fixpoint for_each_raising (addresses : list Z) (st : ScanState P) : Scan P :=
  match addresses with
  | [] => Finished st
  | a :: rest =>
      match probe_raising st a with
      | Finished st' => for_each_raising rest st'
      | Aborted e st' => Aborted e st'
      end
  end.

Definition scan_raising (port : P) : Scan P :=
  for_each_raising (py_range (fst ADDRESS_RANGE) (snd ADDRESS_RANGE + 1))
    {| ser := port; discovered_pumps := []; log := [] |}.

(** The state the loop is in when it ends, one way or the other. *)
Definition reached (s : Scan P) : ScanState P :=
  match s with
  | Finished st => st
  | Aborted _ st => st
  end.

End RaisingScan.

(** A port of the first kind is one whose calls do not raise. *)
#[global] Instance never_raising {P : Type} `{SerialPort P} : RaisingPort P := {
  port_write p command := inr (ser_write p command);
  port_flush p := inr (ser_flush p);
  port_read := ser_read;
  port_reset_input_buffer p := inr (ser_reset_input_buffer p)
}.

(** A port that is gone after [dies_after] writes: the next [write]
    raises; until then it is silent. *)
Record DyingPort : Type := { writes_left : nat }.

#[global] Instance DyingPort_port : RaisingPort DyingPort := {
  port_write p command :=
    match writes_left p with
    | O => inl "write failed"%string
    | S n => inr {| writes_left := n |}
    end;
  port_flush p := inr p;
  port_read p n := (ReadBytes [], p);
  port_reset_input_buffer p := inr p
}.

End Scanner.


(** ** models.py *)

Module Models.

(** [class PumpStatus(str, Enum)]: a member is equal to its name as a
    string, so the literals ["IDLE"], ["CALLING"], ... of [trash.py] are
    read as members. *)
Inductive PumpStatus : Type :=
  | IDLE | CALLING | AUTHORIZED | DISPENSING | COMPLETE | STOPPED | ERROR
  | OFFLINE.

#[global] Instance PumpStatus_eq_dec : EqDecision PumpStatus.
Proof. solve_decision. Defined.

(** [datetime.now(timezone.utc).isoformat()] *)
Definition Timestamp : Type := string.

Record PumpStatusResponse : Type := {
  pump_id : Z;
  status : PumpStatus;
  last_updated : Timestamp;
  error_message : option string;
  raw_status_code : option string;
  wire_format : option string
}.

Record TransactionData : Type := {
  tx_pump_id : Z;
  tx_volume : option Qc;
  tx_price_per_unit : option Qc;
  tx_total_amount : option Qc;
  tx_grade : option Z;
  tx_timestamp : Timestamp
}.

End Models.

(** ** The snapshot sent to the subscribers *)

(** The [rt] dictionary of a dispensing pump. *)
Record Realtime : Type := {
  rt_price_per_unit : option Z;
  rt_grade : option Z;
  rt_timestamp : Models.Timestamp;
  rt_total_amount : option Qc;
  rt_volume : option Qc
}.

(** [tx.dict()] with its price repaired: the [txd] dictionary. *)
Record Transaction : Type := {
  txd_pump_id : Z;
  txd_volume : option Qc;
  txd_price_per_unit : option Z;
  txd_total_amount : option Qc;
  txd_grade : option Z;
  txd_timestamp : Models.Timestamp
}.

(** [st.dict()] with the optional ["realtime"] and ["transaction"] keys. *)
Record PumpItem : Type := {
  base : Models.PumpStatusResponse;
  realtime : option Realtime;
  transaction : option Transaction
}.

Record Frame : Type := {
  ts : Models.Timestamp;
  pumps : list PumpItem
}.

(** The item with each of its clock fields ([last_updated] and the
    [timestamp] of its realtime or transaction record) set to [t]. *)
Definition restamp (t : Models.Timestamp) (item : PumpItem) : PumpItem :=
  {| base :=
       {| Models.pump_id := Models.pump_id (base item);
          Models.status := Models.status (base item);
          Models.last_updated := t;
          Models.error_message := Models.error_message (base item);
          Models.raw_status_code := Models.raw_status_code (base item);
          Models.wire_format := Models.wire_format (base item) |};
     realtime :=
       (fun rt =>
          {| rt_price_per_unit := rt_price_per_unit rt;
             rt_grade := rt_grade rt;
             rt_timestamp := t;
             rt_total_amount := rt_total_amount rt;
             rt_volume := rt_volume rt |}) <$> realtime item;
     transaction :=
       (fun txd =>
          {| txd_pump_id := txd_pump_id txd;
             txd_volume := txd_volume txd;
             txd_price_per_unit := txd_price_per_unit txd;
             txd_total_amount := txd_total_amount txd;
             txd_grade := txd_grade txd;
             txd_timestamp := t |}) <$> transaction item |}.

(** A decimal literal of the source as a rational. *)
Definition num (q : Q) : Qc := Q2Qc q.

(** ** trash.py *)

Module Trash.
Import Models.

(** [get_frame()], with the clock reading [current_time] it takes. *)
Definition get_frame (current_time : Timestamp) : Frame :=
  {| ts := current_time;
     pumps := [
       {| base := {| pump_id := 1; status := IDLE;
                     last_updated := current_time; error_message := None;
                     raw_status_code := Some "0x6"; wire_format := Some "0x61" |};
          realtime := None;
          transaction := Some
            {| txd_pump_id := 1; txd_volume := Some (num 30.0);
               txd_price_per_unit := Some 8150;
               txd_total_amount := Some (num 244500.0);
               txd_grade := Some 0; txd_timestamp := current_time |} |};
       {| base := {| pump_id := 2; status := CALLING;
                     last_updated := current_time; error_message := None;
                     raw_status_code := Some "0x7"; wire_format := Some "0x72" |};
          realtime := None; transaction := None |};
       {| base := {| pump_id := 3; status := AUTHORIZED;
                     last_updated := current_time; error_message := None;
                     raw_status_code := Some "0x8"; wire_format := Some "0x83" |};
          realtime := None; transaction := None |};
       {| base := {| pump_id := 4; status := DISPENSING;
                     last_updated := current_time; error_message := None;
                     raw_status_code := Some "0x9"; wire_format := Some "0x94" |};
          realtime := Some
            {| rt_price_per_unit := Some 81500; rt_grade := Some 0;
               rt_timestamp := current_time;
               rt_total_amount := Some (num 25400);
               rt_volume := Some (num 3.116) |};
          transaction := None |};
       {| base := {| pump_id := 5; status := COMPLETE;
                     last_updated := current_time; error_message := None;
                     raw_status_code := Some "0xA"; wire_format := Some "0xA5" |};
          realtime := None;
          transaction := Some
            {| txd_pump_id := 5; txd_volume := Some (num 15.234);
               txd_price_per_unit := Some 8150;
               txd_total_amount := Some (num 124156.1);
               txd_grade := Some 0; txd_timestamp := current_time |} |};
       {| base := {| pump_id := 6; status := STOPPED;
                     last_updated := current_time; error_message := None;
                     raw_status_code := Some "0xC"; wire_format := Some "0xC6" |};
          realtime := None; transaction := None |};
       {| base := {| pump_id := 7; status := ERROR;
                     last_updated := current_time;
                     error_message := Some "Communication timeout";
                     raw_status_code := Some "0x0"; wire_format := Some "0x07" |};
          realtime := None; transaction := None |};
       {| base := {| pump_id := 8; status := OFFLINE;
                     last_updated := current_time;
                     error_message := Some "No response from pump";
                     raw_status_code := None; wire_format := None |};
          realtime := None; transaction := None |}
     ] |}%string.

End Trash.

(** ** ws_pumps.py *)

Module WsPumps.
Import Models.

(** *** Numbers *)

(** [round(x)]: the nearest integer, a tie going to the even one. *)
Definition py_round_int (x : Qc) : Z :=
  let f := Qfloor x in
  match (x - Q2Qc (inject_Z f) ?= num 0.5)%Qc with
  | Lt => f
  | Gt => f + 1
  | Eq => if Z.even f then f else f + 1
  end.

Definition of_int (z : Z) : Qc := Q2Qc (inject_Z z).

(** [round(x, ndigits)] *)
Definition py_round (x : Qc) (ndigits : nat) : Qc :=
  let scale := of_int (10 ^ Z.of_nat ndigits) in
  (of_int (py_round_int (x * scale)) / scale)%Qc.

(** *** Floating point *)

(** A float is a double: 53 bits of mantissa, and exponents down to
    that of the subnormal numbers. It is read as the rational it
    denotes. The embedding holds the finite floats: [inf] and [nan] are
    not values of it, and neither is a result beyond the largest double,
    which the code turns into [inf], or refuses with [OverflowError]
    when it is an [int] that an operation converts. *)

(** [2 ^ e] for every integer [e]. *)
Definition pow2 (e : Z) : Qc :=
  if 0 <=? e then of_int (2 ^ e) else (1 / of_int (2 ^ (- e)))%Qc.

(** For [x] other than 0, the [k] with [2 ^ k <= |x| < 2 ^ (k + 1)]. *)
Definition binade (x : Qc) : Z :=
  let magnitude := if decide (x < of_int 0)%Qc then (- x)%Qc else x in
  let k := Z.log2 (Z.abs (Qnum x)) - Z.log2 (Zpos (Qden x)) in
  if decide (pow2 k <= magnitude)%Qc then k else k - 1.

(** The double nearest to the real number [x], a tie going to the even
    mantissa: what a float operation returns for the exact result [x]. *)
Definition fl (x : Qc) : Qc :=
  if decide (x = of_int 0) then x
  else
    let e := Z.max (binade x - 52) (-1074) in
    (of_int (py_round_int (x / pow2 e)) * pow2 e)%Qc.

(** [float(z)] for an [int], as a float operation converts its [int]
    operand. *)
Definition float_of_int (z : Z) : Qc := fl (of_int z).

(** [a * b] and [a / b] on floats, [b] not 0. *)
Definition fmul (a b : Qc) : Qc := fl (a * b).
Definition fdiv (a b : Qc) : Qc := fl (a / b).

(** [round(x, ndigits)] as the float it is: the double nearest to the
    decimal [py_round x ndigits]. Where the code only records the
    result, it is recorded as that decimal, which is what it prints as;
    where the code computes with it, it is this double. *)
Definition round_float (x : Qc) (ndigits : nat) : Qc := fl (py_round x ndigits).

(** Truth value of an optional number: [None] and zero are false. *)
Definition truthy_float (x : option Qc) : bool :=
  match x with
  | Some v => negb (bool_decide (v = of_int 0))
  | None => false
  end.

Definition truthy_int (x : option Z) : bool :=
  match x with
  | Some v => negb (v =? 0)
  | None => false
  end.

(** *** price-fix *)

Definition fix_price (ppu : option Qc) : option Z :=
  match ppu with
  | None => None
  | Some v =>
      let p := py_round_int v in
      if (p >? 9999) && (p mod 10 =? 0) && ((1000 <=? p / 10) && (p / 10 <=? 9999))
      then Some (p / 10)
      else Some p
  end.

(** *** Hub *)

(** A connection object, known by its identity ([is], [is not]). *)
Definition WebSocket : Type := nat.

Record Hub : Type := { clients : list WebSocket }.

(** [ws.accept()] is taken not to raise. *)
Definition connect (ws : WebSocket) (h : Hub) : Hub :=
  {| clients := clients h ++ [ws] |}.

Definition disconnect (ws : WebSocket) (h : Hub) : Hub :=
  {| clients := filter (fun c => c <> ws) (clients h) |}.

(** What [ws.send_json] can raise. All are subclasses of [Exception];
    cancellation of the task is not an [Exception] and is not modelled. *)
Inductive SendError : Type :=
  | WebSocketDisconnect
  | ConnectionResetError
  | RuntimeError
  | OtherException.

#[global] Instance SendError_eq_dec : EqDecision SendError.
Proof. solve_decision. Defined.

(** [except (WebSocketDisconnect, ConnectionResetError, RuntimeError, Exception)] *)
Definition caught (e : SendError) : bool :=
  match e with
  | WebSocketDisconnect => true
  | ConnectionResetError => true
  | RuntimeError => true
  | OtherException => true
  end.

Section Broadcast.
Context {Msg : Type}.

(** The network: [send_json ws msg] delivers ([None]) or raises. *)
Variable send_json : WebSocket -> Msg -> option SendError.

Record Sweep : Type := {
  sent : list (WebSocket * Msg);
  disconnected_clients : list WebSocket;
  propagated : option SendError
}.

(** [for ws in self.clients.copy(): try: await ws.send_json(msg) ...] *)
Fixpoint sweep (copy : list WebSocket) (msg : Msg) (acc : Sweep) : Sweep :=
  match copy with
  | [] => acc
  | ws :: rest =>
      match send_json ws msg with
      | None =>
          sweep rest msg
            {| sent := sent acc ++ [(ws, msg)];
               disconnected_clients := disconnected_clients acc;
               propagated := None |}
      | Some e =>
          if caught e then
            sweep rest msg
              {| sent := sent acc;
                 disconnected_clients := disconnected_clients acc ++ [ws];
                 propagated := None |}
          else
            {| sent := sent acc;
               disconnected_clients := disconnected_clients acc;
               propagated := Some e |}
      end
  end.

Record Broadcast : Type := {
  hub_after : Hub;
  deliveries : list (WebSocket * Msg);
  raised : option SendError
}.

(** [Hub.broadcast]. [jsonable_encoder] leaves a payload of dictionaries,
    lists, strings, numbers and [None] as it is. The coroutine is run to
    its end without another task changing [self.clients] in between. *)
Definition broadcast (h : Hub) (payload : Msg) : Broadcast :=
  let msg := payload in
  let s := sweep (clients h) msg
             {| sent := []; disconnected_clients := []; propagated := None |} in
  match propagated s with
  | Some e => {| hub_after := h; deliveries := sent s; raised := Some e |}
  | None =>
      {| hub_after := foldl (fun h ws => disconnect ws h) h (disconnected_clients s);
         deliveries := sent s;
         raised := None |}
  end.

End Broadcast.

(** *** The caches and the per-pump pass of [pumps_socket] *)

Record MetaEntry : Type := {
  price_per_unit : option Z;
  grade : option Z
}.

(** The module-level dictionaries [meta], [last_live] and [last_tx]. *)
Record Caches : Type := {
  meta : gmap Z MetaEntry;
  last_live : gmap Z Qc;
  last_tx : gmap Z Transaction
}.

(** [pm.get_realtime(pid)]: an exception, or an optional number. *)
Inductive LiveRead : Type :=
  | LiveRaises
  | LiveValue (live_val : option Qc).

(** What one pass over a pump takes from the pump manager and the clock.
    In the source as it stands the pump manager is commented out:
    [pump_statuses] and both [tx] are the literal [{}] (here: no pump,
    and [None]) and [pm] is unbound, so [pm.get_realtime] raises (here
    [LiveRaises]). The reads are parameters, so that the pass is described
    for every pump manager. *)
Record PumpRead : Type := {
  st : PumpStatusResponse;
  meta_tx : option TransactionData;
  live : LiveRead;
  rt_now : Timestamp;
  complete_tx : option TransactionData
}.

Definition set_meta (f : gmap Z MetaEntry -> gmap Z MetaEntry) (c : Caches) : Caches :=
  {| meta := f (meta c); last_live := last_live c; last_tx := last_tx c |}.

Definition set_last_live (f : gmap Z Qc -> gmap Z Qc) (c : Caches) : Caches :=
  {| meta := meta c; last_live := f (last_live c); last_tx := last_tx c |}.

Definition set_last_tx (f : gmap Z Transaction -> gmap Z Transaction) (c : Caches) : Caches :=
  {| meta := meta c; last_live := last_live c; last_tx := f (last_tx c) |}.

(** [if pid not in meta: ... if tx and tx.price_per_unit: meta[pid] = ...] *)
Definition refresh_meta (pid : Z) (tx : option TransactionData) (c : Caches) : Caches :=
  match meta c !! pid with
  | Some _ => c
  | None =>
      match tx with
      | Some t =>
          if truthy_float (tx_price_per_unit t) then
            set_meta
              <[pid := {| price_per_unit := fix_price (tx_price_per_unit t);
                          grade := tx_grade t |}]> c
          else c
      | None => c
      end
  end.

(** [live_val = pm.get_realtime(pid); if live_val is not None: last_live[pid] = live_val],
    an exception being caught and logged at debug level. *)
Definition read_live (pid : Z) (r : LiveRead) (c : Caches) : Caches :=
  match r with
  | LiveValue (Some live_val) => set_last_live <[pid := live_val]> c
  | LiveValue None => c
  | LiveRaises => c
  end.

(** The [rt] dictionary of the DISPENSING branch:
    [price = (price_per_unit * 10) if price_per_unit else None], then
    [if price and price > 0 and pid in last_live: ... elif pid in last_live: ...]. *)
Definition realtime_of (pid : Z) (now : Timestamp) (c : Caches) : Realtime :=
  let ppu := meta c !! pid ≫= price_per_unit in
  let price := if truthy_int ppu then (fun p => p * 10) <$> ppu else None in
  let rt total_amount volume :=
    {| rt_price_per_unit := price;
       rt_grade := meta c !! pid ≫= grade;
       rt_timestamp := now;
       rt_total_amount := total_amount;
       rt_volume := volume |} in
  match price, last_live c !! pid with
  | Some pr, Some lv =>
      if negb (pr =? 0) && (pr >? 0) then
        let total_amount := fmul (round_float lv 2) (float_of_int 1000) in
        rt (Some total_amount)
           (Some (py_round (fdiv total_amount (float_of_int pr)) 3))
      else rt None (Some (py_round lv 3))
  | None, Some lv => rt None (Some (py_round lv 3))
  | _, None => rt None None
  end.

(** [if pid in last_live and last_live[pid] == 0: last_tx.pop(pid, None)] *)
Definition reset_on_zero (pid : Z) (c : Caches) : Caches :=
  match last_live c !! pid with
  | Some lv => if bool_decide (lv = of_int 0) then set_last_tx (delete pid) c else c
  | None => c
  end.

(** [txd = tx.dict(); txd["price_per_unit"] = fix_price(txd["price_per_unit"])] *)
Definition txd_of (t : TransactionData) : Transaction :=
  {| txd_pump_id := tx_pump_id t;
     txd_volume := tx_volume t;
     txd_price_per_unit := fix_price (tx_price_per_unit t);
     txd_total_amount := tx_total_amount t;
     txd_grade := tx_grade t;
     txd_timestamp := tx_timestamp t |}.

(** The body of [for pid, st in pump_statuses.items()]: the caches after
    it and the [item] appended to [frame["pumps"]]. With reads of these
    types no statement of the body raises outside its inner [try]. *)
Definition process_pump (pid : Z) (r : PumpRead) (c : Caches) : Caches * PumpItem :=
  let c := refresh_meta pid (meta_tx r) c in
  if decide (status (st r) = DISPENSING) then
    let c := read_live pid (live r) c in
    let rt := realtime_of pid (rt_now r) c in
    (reset_on_zero pid c,
     {| base := st r; realtime := Some rt; transaction := None |})
  else if decide (status (st r) = COMPLETE \/ status (st r) = IDLE) then
    match complete_tx r with
    | Some t =>
        let txd := txd_of t in
        (set_meta
           <[pid := {| price_per_unit := txd_price_per_unit txd;
                       grade := txd_grade txd |}]>
           (set_last_tx <[pid := txd]> c),
         {| base := st r; realtime := None; transaction := Some txd |})
    | None => (c, {| base := st r; realtime := None; transaction := None |})
    end
  else (c, {| base := st r; realtime := None; transaction := None |}).

Fixpoint aggregate (pump_statuses : list (Z * PumpRead)) (c : Caches)
    (frame_pumps : list PumpItem) : Caches * list PumpItem :=
  match pump_statuses with
  | [] => (c, frame_pumps)
  | (pid, r) :: rest =>
      let '(c', item) := process_pump pid r c in
      aggregate rest c' (frame_pumps ++ [item])
  end.

(** *** One iteration of [while True] *)

Record TickInput : Type := {
  frame_ts : Timestamp;
  pump_statuses : list (Z * PumpRead);
  get_frame_now : Timestamp
}.

Record TickResult : Type := {
  caches_after : Caches;
  frame : Frame;
  sent_now : Broadcast (Msg := Frame)
}.

(** The [frame] built from the pumps is left aside: the call is
    [hub.broadcast(get_frame())]. *)
Definition tick (send_json : WebSocket -> Frame -> option SendError)
    (i : TickInput) (c : Caches) (h : Hub) : TickResult :=
  let '(c', items) := aggregate (pump_statuses i) c [] in
  {| caches_after := c';
     frame := {| ts := frame_ts i; pumps := items |};
     sent_now := broadcast send_json h (Trash.get_frame (get_frame_now i)) |}.

End WsPumps.

(** ** main.py *)

Module Main.

(** The pump manager is not part of the repository as it stands: its
    import and the global [pump_manager] are commented out, so the name
    is unbound there. It is a parameter here, [None] standing for a
    manager that is not initialised, and each method is taken with the
    types its callers and [models.py] give it. *)

Definition COMPORT : string := "COM3".

(** What an endpoint raises: an [HTTPException] with its status code
    and detail, or whatever a call of the pump manager raised. *)
Inductive Raised : Type :=
  | HTTPException (status_code : Z) (detail : Detail)
  | ManagerError (what : string)
with Detail : Type :=
  | NotInitialized
  | RangeInverted
  | DiscoveryFailed (e : Raised)
  | NoRealtimeData (pump_id : Z).

Record RealtimeData : Type := {
  rd_pump_id : Z;
  money : Qc
}.

Record GradeInfo : Type := {
  id : Z;
  title : option string;
  price : Qc
}.

(** A module-level name as a function finds it when it runs: unbound,
    or bound to a value. *)
Inductive Global (A : Type) : Type :=
  | Unbound
  | Bound (value : A).
Arguments Unbound {A}.
Arguments Bound {A} value.

(** What a call of [discover_pumps] raises: the [NameError] of an
    unbound global, or an exception of its own. *)
Inductive EndpointError : Type :=
  | NameError (name : string)
  | Raises (e : Raised).

Section Endpoints.
Context {DiscoveryResult : Type}.

Record PumpManager : Type := {
  auto_discover_and_manage :
    list string -> Z * Z -> Qc -> Raised + DiscoveryResult;
  get_realtime : Z -> option Qc
}.

(** [discover_pumps]. Its first statement, [if not pump_manager], reads
    the global: in the source as it stands nothing binds the name and
    the statement raises [NameError], outside the [try]. The range test
    and the call of the manager are inside
    [try: ... except Exception as e: raise HTTPException(500, ...)], and
    an [HTTPException] is an [Exception]. *)
Definition discover_pumps (pump_manager : Global (option PumpManager))
    (address_range_start address_range_end : Z) (timeout : Qc)
    : EndpointError + DiscoveryResult :=
  match pump_manager with
  | Unbound => inl (NameError "pump_manager")
  | Bound None => inl (Raises (HTTPException 500 NotInitialized))
  | Bound (Some pm) =>
      let attempt :=
        if address_range_start >? address_range_end
        then inl (HTTPException 400 RangeInverted)
        else auto_discover_and_manage pm [COMPORT]
               (address_range_start, address_range_end) timeout in
      match attempt with
      | inr result => inr result
      | inl e => inl (Raises (HTTPException 500 (DiscoveryFailed e)))
      end
  end.

(** [get_realtime_money], the global being bound:
    [if not realtime: raise HTTPException(404, ...)]. *)
Definition get_realtime_money (pump_manager : option PumpManager) (pump_id : Z)
    : Raised + RealtimeData :=
  match pump_manager with
  | None => inl (HTTPException 500 NotInitialized)
  | Some pm =>
      let realtime := get_realtime pm pump_id in
      match realtime with
      | Some v =>
          if WsPumps.truthy_float realtime
          then inr {| rd_pump_id := pump_id; money := v |}
          else inl (HTTPException 404 (NoRealtimeData pump_id))
      | None => inl (HTTPException 404 (NoRealtimeData pump_id))
      end
  end.

End Endpoints.
Arguments PumpManager : clear implicits.

(** *** The accounting of [change_prices] *)

(** The two messages of a grade result. *)
Inductive GradeMessage : Type :=
  | PriceUpdatedTo (price : Qc)
  | FailedToUpdate (grade_id : Z).

Record GradeResult : Type := {
  grade_id : Z;
  grade_title : option string;
  new_price : Qc;
  success : bool;
  message : GradeMessage
}.

Record Accounting : Type := {
  grade_results : list GradeResult;
  overall_success : bool;
  successful_count : Z;
  failed_count : Z
}.

(** [result[i] if i < len(result) else False] *)
Definition grade_success_at (result : list bool) (i : nat) : bool :=
  default false (result !! i).

(** [for i, grade_info in enumerate(request.grades_info): ...], from
    index [i], with the [grade_results] and [overall_success] so far. *)
Fixpoint grade_loop (i : nat) (grades_info : list GradeInfo) (result : list bool)
    (grade_results : list GradeResult) (overall_success : bool)
    : list GradeResult * bool :=
  match grades_info with
  | [] => (grade_results, overall_success)
  | grade_info :: rest =>
      let grade_success := grade_success_at result i in
      let overall_success := if negb grade_success then false else overall_success in
      grade_loop (S i) rest result
        (grade_results
         ++ [{| grade_id := id grade_info;
                grade_title := title grade_info;
                new_price := price grade_info;
                success := grade_success;
                message := if grade_success
                           then PriceUpdatedTo (price grade_info)
                           else FailedToUpdate (id grade_info) |}])
        overall_success
  end.

(** [sum(result)], [True] counting as 1. *)
Definition py_sum (result : list bool) : Z :=
  foldr (fun (b : bool) acc => (if b then 1 else 0) + acc) 0 result.

(** What [change_prices] computes from the answer [result] of the
    manager, before it builds the response. *)
Definition grade_accounting (grades_info : list GradeInfo) (result : list bool)
    : Accounting :=
  let '(grade_results, overall_success) := grade_loop 0 grades_info result [] true in
  let successful_count := py_sum result in
  {| grade_results := grade_results;
     overall_success := overall_success;
     successful_count := successful_count;
     failed_count := Z.of_nat (length grades_info) - successful_count |}.

End Main.

(** * Properties *)

(** ** Codec *)

Section Codec.
Import Scanner.

Lemma int_of_byte_range (b : byte) : 0 <= int_of_byte b < 256.
Proof.
  unfold int_of_byte.
  pose proof (Byte.to_N_bounded b) as Hb.
  lia.
Qed.

Lemma low_nibble_range (w : Z) : 0 <= Z.land w 0xF < 16.
Proof.
  change 0xF with (Z.ones 4).
  rewrite Z.land_ones by lia.
  apply Z.mod_pos_bound. reflexivity.
Qed.

Lemma nibble_to_pump_id_in_range (n : Z) :
  0 <= n < 16 -> nibble_to_pump_id n = Ok (if n =? 0 then 16 else n).
Proof.
  intros Hn. unfold nibble_to_pump_id.
  destruct (n =? 0) eqn:E0; [reflexivity|].
  apply Z.eqb_neq in E0.
  replace (1 <=? n) with true by (symmetry; apply Z.leb_le; lia).
  replace (n <=? 15) with true by (symmetry; apply Z.leb_le; lia).
  reflexivity.
Qed.

Lemma pump_id_to_nibble_in_range (a : Z) :
  1 <= a <= 16 -> pump_id_to_nibble a = Ok (if a =? 16 then 0 else a).
Proof.
  intros Ha. unfold pump_id_to_nibble.
  destruct (a =? 16) eqn:E16; [reflexivity|].
  apply Z.eqb_neq in E16.
  replace (1 <=? a) with true by (symmetry; apply Z.leb_le; lia).
  replace (a <=? 15) with true by (symmetry; apply Z.leb_le; lia).
  reflexivity.
Qed.

Lemma parse_one_byte (b : byte) :
  parse_status_response [b] =
    Ok (let n := Z.land (int_of_byte b) 0xF in if n =? 0 then 16 else n,
        Z.land (Z.shiftr (int_of_byte b) 4) 0xF).
Proof.
  unfold parse_status_response. cbn [length Nat.eqb negb item0 bind].
  rewrite nibble_to_pump_id_in_range by apply low_nibble_range.
  reflexivity.
Qed.

Lemma parse_wrong_length (response : list byte) :
  length response <> 1%nat ->
  parse_status_response response = Raise InvalidStatusResponseLength.
Proof.
  intros Hlen. unfold parse_status_response.
  destruct (Nat.eqb_spec (length response) 1) as [E|E]; [contradiction|].
  reflexivity.
Qed.

Example build_status_command_5 : build_status_command 5 = Ok [x05].
Proof. reflexivity. Qed.

Example build_status_command_16 : build_status_command 16 = Ok [x00].
Proof. reflexivity. Qed.

Example build_status_command_17 : build_status_command 17 = Raise (InvalidPumpId 17).
Proof. reflexivity. Qed.

Example status_code_samples :
  map status_code_to_enum [0x0; 0x6; 0x9; 0xA; 0xB; 0xD; 0x1; 99; -1]
  = [DATA_ERROR; OFF; BUSY; PEOT; FEOT; OFFLINE; OFFLINE; OFFLINE; OFFLINE].
Proof. vm_compute. reflexivity. Qed.

(** C7. For every address [a] in [1, 16], converting [a] to its nibble
    and back gives [a]; the nibble of 16 is 0, of 1 is 1, of 15 is 15, and
    nibble 0 is address 16. *)
Theorem nibble_roundtrip (a : Z) :
  1 <= a <= 16 ->
  (exists n, pump_id_to_nibble a = Ok n /\ 0 <= n <= 15 /\
             nibble_to_pump_id n = Ok a)
  /\ pump_id_to_nibble 16 = Ok 0
  /\ pump_id_to_nibble 1 = Ok 1
  /\ pump_id_to_nibble 15 = Ok 15
  /\ nibble_to_pump_id 0 = Ok 16.
Proof.
  intros Ha. split; [|repeat split].
  exists (if a =? 16 then 0 else a).
  split; [apply pump_id_to_nibble_in_range; exact Ha|].
  destruct (Z.eqb_spec a 16) as [->|Hne].
  - split; [lia|reflexivity].
  - split; [lia|].
    rewrite nibble_to_pump_id_in_range by lia.
    destruct (Z.eqb_spec a 0); [lia|reflexivity].
Qed.

Lemma nibble_roundtrip_at_16 :
  1 <= 16 <= 16 /\
  exists n, pump_id_to_nibble 16 = Ok n /\ 0 <= n <= 15 /\
            nibble_to_pump_id n = Ok 16.
Proof.
  split; [lia|].
  exact (proj1 (nibble_roundtrip 16 ltac:(lia))).
Defined.

(** C6. [parse_status_response] raises exactly when the length of its
    input is not 1, and what it raises then is the length error (so on
    an empty and on a two-byte input); on the byte 0x85 it returns
    address 5 and status code 0x8. *)
Theorem parse_status_response_length (response : list byte) :
  (raises (parse_status_response response) <-> length response <> 1%nat)
  /\ (parse_status_response response = Raise InvalidStatusResponseLength
      <-> length response <> 1%nat)
  /\ parse_status_response [] = Raise InvalidStatusResponseLength
  /\ parse_status_response [x85; x85] = Raise InvalidStatusResponseLength
  /\ parse_status_response [x85] = Ok (5, 0x8).
Proof.
  assert (Hone : length response = 1%nat ->
                 exists r, parse_status_response response = Ok r).
  { destruct response as [|b [|b' rest]]; try discriminate.
    intros _. rewrite parse_one_byte. eauto. }
  repeat split; try reflexivity.
  - intros Hr E. destruct (Hone E) as [r Hr']. rewrite Hr' in Hr. exact Hr.
  - intros Hlen. rewrite parse_wrong_length by exact Hlen. exact I.
  - intros Hr E. destruct (Hone E) as [r Hr']. congruence.
  - apply parse_wrong_length.
Qed.

(** C10. On every input of length 1 [parse_status_response] returns: the
    low nibble of the byte lies in [0, 15], so [nibble_to_pump_id] does
    not raise on it, and the result is an address in [1, 16] with a
    status code in [0, 15]. *)
Theorem parse_status_response_single_byte (response : list byte) :
  length response = 1%nat ->
  exists b pump_id status_code,
    response = [b]
    /\ 0 <= Z.land (int_of_byte b) 0xF <= 15
    /\ nibble_to_pump_id (Z.land (int_of_byte b) 0xF) = Ok pump_id
    /\ parse_status_response response = Ok (pump_id, status_code)
    /\ 1 <= pump_id <= 16
    /\ 0 <= status_code <= 15.
Proof.
  intros Hlen.
  destruct response as [|b [|b' rest]]; try discriminate.
  pose proof (low_nibble_range (int_of_byte b)) as Hlow.
  pose proof (low_nibble_range (Z.shiftr (int_of_byte b) 4)) as Hhigh.
  eexists b, _, _. split; [reflexivity|].
  split; [lia|].
  split; [apply nibble_to_pump_id_in_range; exact Hlow|].
  split; [apply parse_one_byte|].
  cbn zeta. split; [|lia].
  destruct (Z.eqb_spec (Z.land (int_of_byte b) 0xF) 0); lia.
Qed.

Lemma parse_status_response_single_byte_at_0x90 :
  exists b pump_id status_code,
    [x90] = [b]
    /\ 0 <= Z.land (int_of_byte b) 0xF <= 15
    /\ nibble_to_pump_id (Z.land (int_of_byte b) 0xF) = Ok pump_id
    /\ parse_status_response [x90] = Ok (pump_id, status_code)
    /\ 1 <= pump_id <= 16
    /\ 0 <= status_code <= 15.
Proof. exact (parse_status_response_single_byte [x90] eq_refl). Defined.

(** C2, as the code has it. The mapping is defined on every integer, so
    on each of the 16 four-bit values, and gives one state of the
    scanner's own enumeration: 0x0 gives DATA_ERROR, 0x6 OFF, 0x7 CALL,
    0x8 AUTHORIZED, 0x9 BUSY, 0xC STOP; 0xA gives PEOT and 0xB gives FEOT,
    two different states; a code gives OFFLINE exactly when it is not one
    of these eight, and so does 0xD. *)
Theorem status_code_to_enum_table (c : Z) :
  (status_code_to_enum c = OFFLINE
   <-> c ∉ [0x0; 0x6; 0x7; 0x8; 0x9; 0xA; 0xB; 0xC])
  /\ map status_code_to_enum [0x0; 0x6; 0x7; 0x8; 0x9; 0xA; 0xB; 0xC]
     = [DATA_ERROR; OFF; CALL; AUTHORIZED; BUSY; PEOT; FEOT; STOP]
  /\ status_code_to_enum 0xD = OFFLINE
  /\ status_code_to_enum 0xA <> status_code_to_enum 0xB
  /\ status_code_to_enum 0x0 <> status_code_to_enum 0xD.
Proof.
  split; [|by vm_compute].
  unfold status_code_to_enum. split.
  - intros Hoff Hin.
    repeat (apply elem_of_cons in Hin as [->|Hin]; [by vm_compute in Hoff|]).
    by apply elem_of_nil in Hin.
  - intros Hnot. unfold status_map.
    rewrite (not_elem_of_list_to_map_1 (M := gmap Z)); [reflexivity|exact Hnot].
Qed.

(** C2, as the claim has it, fails: 0x0 and 0xD do not map to one state
    (DATA_ERROR and OFFLINE), nor do 0xA and 0xB (PEOT and FEOT), and the
    unknown code 0x1 does not map to the state of 0x0. *)
Lemma status_code_to_enum_not_collapsing :
  ~ (exists error complete,
       status_code_to_enum 0x0 = error /\ status_code_to_enum 0xD = error
       /\ status_code_to_enum 0xA = complete /\ status_code_to_enum 0xB = complete
       /\ status_code_to_enum 0x1 = error).
Proof.
  intros (error & complete & H0 & HD & _).
  rewrite <- H0 in HD. by vm_compute in HD.
Qed.

End Codec.

(** ** Scanner *)

Section ScanLoop.
Import Scanner.
Context {P : Type} `{SerialPort P}.

Lemma handle_response_mismatch (a : Z) (response : list byte) (st : ScanState P)
    (response_pump_id status_code : Z) :
  parse_status_response response = Ok (response_pump_id, status_code) ->
  response_pump_id <> a ->
  discovered_pumps (handle_response a response st) = discovered_pumps st
  /\ last (log (handle_response a response st))
     = Some (LogIdMismatch a response_pump_id).
Proof.
  intros Hparse Hne. unfold handle_response. rewrite Hparse.
  destruct (Z.eqb_spec response_pump_id a) as [E|_]; [contradiction|].
  cbn. split; [reflexivity|].
  rewrite !last_snoc. reflexivity.
Qed.

Lemma handle_response_appends (a : Z) (response : list byte) (st : ScanState P) :
  discovered_pumps (handle_response a response st) = discovered_pumps st
  \/ exists status_code,
       parse_status_response response = Ok (a, status_code)
       /\ status_code_to_enum status_code <> OFFLINE
       /\ discovered_pumps (handle_response a response st)
          = discovered_pumps st
            ++ [{| address := a; status := status_code_to_enum status_code;
                   status_code := status_code; response_raw := response |}].
Proof.
  unfold handle_response.
  destruct (parse_status_response response) as [[rid sc]|e] eqn:Hparse;
    [|left; reflexivity].
  destruct (Z.eqb_spec rid a) as [->|_]; [|left; reflexivity].
  destruct (decide (status_code_to_enum sc <> OFFLINE)) as [Hon|_];
    [|left; reflexivity].
  right. exists sc. cbn. auto.
Qed.

(** Whatever is read, a probe adds at most one pump, and then the one
    polled, on an answer that echoes its address. *)
Lemma probe_appends_only_polled (st st' : ScanState P) (a : Z) :
  probe st a = Ok st' ->
  discovered_pumps st' = discovered_pumps st
  \/ exists response status_code,
       parse_status_response response = Ok (a, status_code)
       /\ discovered_pumps st'
          = discovered_pumps st
            ++ [{| address := a; status := status_code_to_enum status_code;
                   status_code := status_code; response_raw := response |}].
Proof.
  unfold probe.
  destruct (build_status_command a) as [command|e]; [|discriminate].
  cbn [bind emit with_ser ser discovered_pumps log].
  destruct (ser_read _ 1) as [outcome p'].
  intros [= <-]. cbn [with_ser discovered_pumps].
  destruct outcome as [[|b rest]|]; [by left| |by left].
  match goal with
  | |- context [handle_response a ?resp ?s] =>
      destruct (handle_response_appends a resp s) as [Hsame|(sc & Hp & _ & Happ)]
  end.
  - left. exact Hsame.
  - right. eauto.
Qed.

(** C8. When the poll of an address is answered by one well-formed byte
    whose echoed address is not the address polled, the probe logs the
    mismatch as a warning and leaves the discovered list as it was, so
    that neither the polled nor the echoed address is added. On a bus
    that answers the poll of 3 with a frame echoing 7, the whole scan
    finds neither pump 3 nor pump 7. *)
Theorem probe_address_mismatch (st : ScanState P) (a : Z)
    (command response : list byte) (p' : P) (response_pump_id status_code : Z) :
  build_status_command a = Ok command ->
  ser_read (port_after_write st command) 1 = (ReadBytes response, p') ->
  parse_status_response response = Ok (response_pump_id, status_code) ->
  response_pump_id <> a ->
  (exists st',
     probe st a = Ok st'
     /\ discovered_pumps st' = discovered_pumps st
     /\ last (log st') = Some (LogIdMismatch a response_pump_id)
     /\ level_of (LogIdMismatch a response_pump_id) = WARNING)
  /\ (exists end_state,
        scan bus_3_echoes_7 = Ok end_state
        /\ map address (discovered_pumps end_state) = [1]
        /\ (3 ∉ map address (discovered_pumps end_state))
        /\ (7 ∉ map address (discovered_pumps end_state))).
Proof.
  intros Hbuild Hread Hparse Hne. split.
  - unfold probe, port_after_write in *. rewrite Hbuild. cbn [bind].
    cbn [emit with_ser ser discovered_pumps log]. rewrite Hread.
    assert (Hlen : exists b, response = [b]).
    { unfold parse_status_response in Hparse.
      destruct response as [|b [|b' rest]]; try discriminate. eauto. }
    destruct Hlen as [b ->].
    eexists. split; [reflexivity|].
    cbn [with_ser ser discovered_pumps log].
    edestruct handle_response_mismatch as [Hd Hl]; [exact Hparse|exact Hne|].
    rewrite Hd, Hl. auto.
  - eexists. split; [vm_compute; reflexivity|].
    split; [reflexivity|].
    split; intros Hin; cbn in Hin; apply list_elem_of_singleton in Hin; lia.
Qed.

End ScanLoop.

Lemma probe_address_mismatch_on_bus :
  exists st',
    Scanner.probe
      {| Scanner.ser := Scanner.bus_3_echoes_7;
         Scanner.discovered_pumps := []; Scanner.log := [] |} 3 = Ok st'
    /\ Scanner.discovered_pumps st' = []
    /\ last (Scanner.log st') = Some (Scanner.LogIdMismatch 3 7)
    /\ Scanner.level_of (Scanner.LogIdMismatch 3 7) = Scanner.WARNING.
Proof.
  refine (proj1 (probe_address_mismatch
                   {| Scanner.ser := Scanner.bus_3_echoes_7;
                      Scanner.discovered_pumps := []; Scanner.log := [] |}
                   3 [x03] [x97]
                   {| Scanner.reply := Scanner.reply Scanner.bus_3_echoes_7;
                      Scanner.input_buffer := [] |}
                   7 9 _ _ _ _)).
  - reflexivity.
  - reflexivity.
  - reflexivity.
  - lia.
Defined.

(** ** Numbers and price repair *)

Section PriceRepair.
Import WsPumps.

Lemma of_int_this (z : Z) : (this (of_int z) == inject_Z z)%Q.
Proof. unfold of_int. cbn. apply Qred_correct. Qed.

(** An integer is its own rounding. *)
Lemma py_round_int_of_int (z : Z) : py_round_int (of_int z) = z.
Proof.
  unfold py_round_int.
  assert (Hfloor : Qfloor (of_int z) = z).
  { rewrite (Qfloor_comp _ _ (of_int_this z)). apply Qfloor_Z. }
  rewrite Hfloor. fold (of_int z).
  replace (of_int z - of_int z)%Qc with (Q2Qc 0) by ring.
  reflexivity.
Qed.

Example py_round_int_samples :
  map py_round_int [num 0.5; num 1.5; num 2.5; num (-0.5); num (-1.5);
                    num 8150.4; num 8150.6; num (-2.4)]
  = [0; 2; 2; 0; -2; 8150; 8151; -2].
Proof. vm_compute. reflexivity. Qed.

Example py_round_samples :
  map (fun x => this (py_round x 2)) [num 10.00; num 3.14159; num 0.125; num 0.135]
  = map (fun x => this (num x)) [10; 3.14; 0.12; 0.14]%Q.
Proof. vm_compute. reflexivity. Qed.

(** C5, as the code has it. The price is first rounded to the nearest
    integer (a tie to the even one), and the rule is applied to the
    rounded price: above 9999, a multiple of 10 and with a quotient by 10
    in [1000, 9999], it becomes that quotient; any other rounded price is
    returned as it is. So an integer price that does not match passes
    unchanged, and so does [None]; 8150 gives 8150, 81500 gives 8150 and
    12345 gives 12345. *)
Theorem fix_price_rule (v : Qc) (z : Z) :
  fix_price (Some (of_int z))
  = Some (if decide (9999 < z /\ z mod 10 = 0 /\ 1000 <= z / 10 <= 9999)
          then z / 10 else z)
  /\ fix_price (Some v) = fix_price (Some (of_int (py_round_int v)))
  /\ fix_price None = None
  /\ fix_price (Some (num 8150)) = Some 8150
  /\ fix_price (Some (num 81500)) = Some 8150
  /\ fix_price (Some (num 12345)) = Some 12345.
Proof.
  split; [|split; [|by vm_compute]].
  - unfold fix_price. rewrite py_round_int_of_int.
    destruct (decide _) as [(Hgt & Hmod & Hlo & Hhi)|Hno].
    + replace (z >? 9999) with true by (symmetry; apply Z.gtb_lt; lia).
      rewrite Hmod. cbn [Z.eqb andb].
      replace (1000 <=? z / 10) with true by (symmetry; apply Z.leb_le; lia).
      replace (z / 10 <=? 9999) with true by (symmetry; apply Z.leb_le; lia).
      reflexivity.
    + destruct (_ && _) eqn:E; [|reflexivity].
      exfalso. apply Hno.
      apply andb_prop in E as [E E3]. apply andb_prop in E as [E1 E2].
      apply andb_prop in E3 as [E3 E4].
      apply Z.gtb_lt in E1. apply Z.eqb_eq in E2.
      apply Z.leb_le in E3. apply Z.leb_le in E4. lia.
  - unfold fix_price. rewrite py_round_int_of_int. reflexivity.
Qed.

(** C5, as the claim has it, fails on a price with a fraction: 12345.25
    is above 9999 and is not a multiple of 10, and yet it is not passed
    through unchanged, it becomes 12345. *)
Lemma fix_price_changes_fraction :
  fix_price (Some (num 12345.25)) = Some 12345
  /\ of_int 12345 <> num 12345.25
  /\ (forall k : Z, of_int (10 * k) <> num 12345.25).
Proof.
  split; [by vm_compute|]. split.
  - intros E. apply (f_equal this) in E. by vm_compute in E.
  - intros k E. apply (f_equal py_round_int) in E.
    rewrite py_round_int_of_int in E.
    assert (Hr : py_round_int (num 12345.25) = 12345) by (by vm_compute).
    lia.
Qed.

End PriceRepair.

(** ** Hub *)

Section HubBroadcast.
Import WsPumps.
Context {Msg : Type}.
Implicit Types (send_json : WebSocket -> Msg -> option SendError).
Implicit Types (h : Hub) (msg : Msg) (ws : WebSocket).

Lemma caught_all (e : SendError) : caught e = true.
Proof. destruct e; reflexivity. Qed.

(** The sweep splits the copy of the registry into the subscribers that
    were sent the message and those whose send raised. *)
Lemma sweep_split send_json (copy : list WebSocket) msg (acc : Sweep) :
  propagated acc = None ->
  sweep send_json copy msg acc
  = {| sent := sent acc
               ++ ((fun ws => (ws, msg)) <$> filter (fun ws => send_json ws msg = None) copy);
       disconnected_clients :=
         disconnected_clients acc
         ++ filter (fun ws => send_json ws msg <> None) copy;
       propagated := None |}.
Proof.
  revert acc. induction copy as [|ws rest IH]; intros acc Hacc.
  - cbn. rewrite !app_nil_r. destruct acc; cbn in *; congruence.
  - cbn [sweep]. rewrite !filter_cons.
    destruct (send_json ws msg) as [e|] eqn:Hsend.
    + rewrite caught_all, IH by reflexivity. cbn [sent disconnected_clients].
      destruct (decide (Some e = None)) as [?|_]; [discriminate|].
      destruct (decide (Some e <> None)) as [_|Hn]; [|by destruct Hn].
      by rewrite <- app_assoc.
    + rewrite IH by reflexivity. cbn [sent disconnected_clients].
      destruct (decide (None = None)) as [_|Hn]; [|by destruct Hn].
      destruct (decide (None <> None)) as [Hn|_]; [by destruct Hn|].
      cbn [fmap list_fmap]. by rewrite <- app_assoc.
Qed.

Lemma filter_iff_in {A} (P1 P2 : A -> Prop)
    `{!forall x, Decision (P1 x), !forall x, Decision (P2 x)} (l : list A) :
  (forall x, x ∈ l -> P1 x <-> P2 x) -> filter P1 l = filter P2 l.
Proof.
  induction l as [|a l IH]; intros Hiff; [reflexivity|].
  rewrite !filter_cons.
  rewrite IH by (intros x Hx; apply Hiff; by right).
  apply decide_ext, Hiff. by left.
Qed.

Lemma filter_all {A} (P1 : A -> Prop) `{!forall x, Decision (P1 x)} (l : list A) :
  (forall x, x ∈ l -> P1 x) -> filter P1 l = l.
Proof.
  induction l as [|a l IH]; intros Hall; [reflexivity|].
  rewrite filter_cons_True by (apply Hall; by left).
  f_equal. apply IH. intros x Hx. apply Hall. by right.
Qed.

Lemma disconnect_all (failed : list WebSocket) h :
  clients (foldl (fun h ws => disconnect ws h) h failed)
  = filter (fun c => c ∉ failed) (clients h).
Proof.
  revert h. induction failed as [|ws rest IH]; intros h.
  - cbn. symmetry. apply filter_all. intros c _. apply not_elem_of_nil.
  - cbn [foldl]. rewrite IH. unfold disconnect. cbn [clients].
    rewrite list_filter_filter. apply list_filter_iff.
    intros c. rewrite not_elem_of_cons. tauto.
Qed.

Lemma filter_not_failed send_json msg (cs : list WebSocket) :
  filter (fun c => c ∉ filter (fun ws => send_json ws msg <> None) cs) cs
  = filter (fun ws => send_json ws msg = None) cs.
Proof.
  apply filter_iff_in. intros c Hc.
  rewrite list_elem_of_filter.
  destruct (send_json c msg); split; try tauto; try congruence.
  intros Hn. exfalso. apply Hn. split; [congruence|exact Hc].
Qed.

Lemma broadcast_result send_json h msg :
  let ok := filter (fun ws => send_json ws msg = None) (clients h) in
  raised (broadcast send_json h msg) = None
  /\ deliveries (broadcast send_json h msg) = (fun ws => (ws, msg)) <$> ok
  /\ clients (hub_after (broadcast send_json h msg)) = ok.
Proof.
  unfold broadcast. rewrite sweep_split by reflexivity.
  cbn [propagated sent disconnected_clients hub_after deliveries raised app].
  repeat split.
  rewrite disconnect_all. apply filter_not_failed.
Qed.

(** C9. A broadcast never raises to its caller; it delivers the message
    to every registered subscriber whose send does not raise, whatever
    the other sends do; after the sweep the registry holds exactly those
    subscribers, so a later broadcast reaches only them. With three
    subscribers of which one fails there are two deliveries and a
    registry of two, and the next broadcast goes to these two. *)
Theorem broadcast_isolates_failures send_json send_json' h msg msg' :
  let b := broadcast send_json h msg in
  let remaining := filter (fun ws => send_json ws msg = None) (clients h) in
  let b' := broadcast send_json' (hub_after b) msg' in
  let fails_on_2 := fun ws (_ : Msg) =>
    if decide (ws = 2%nat) then Some WebSocketDisconnect else None in
  let three := {| clients := [1; 2; 3]%nat |} in
  raised b = None
  /\ deliveries b = (fun ws => (ws, msg)) <$> remaining
  /\ clients (hub_after b) = remaining
  /\ raised b' = None
  /\ deliveries b'
     = (fun ws => (ws, msg')) <$> filter (fun ws => send_json' ws msg' = None) remaining
  /\ raised (broadcast fails_on_2 three msg) = None
  /\ deliveries (broadcast fails_on_2 three msg) = [(1%nat, msg); (3%nat, msg)]
  /\ clients (hub_after (broadcast fails_on_2 three msg)) = [1; 3]%nat
  /\ deliveries (broadcast fails_on_2 (hub_after (broadcast fails_on_2 three msg)) msg')
     = [(1%nat, msg'); (3%nat, msg')].
Proof.
  intros b remaining b' fails_on_2 three.
  destruct (broadcast_result send_json h msg) as (Hr & Hd & Hc).
  destruct (broadcast_result send_json' (hub_after b) msg') as (Hr' & Hd' & _).
  fold b in Hr, Hd, Hc. fold b' in Hr', Hd'. fold remaining in Hd, Hc.
  rewrite Hc in Hd'.
  repeat split; try assumption; reflexivity.
Qed.

End HubBroadcast.

(** ** The tick of [/ws/pumps] *)

Section Tick.
Import Models WsPumps.

Lemma tick_sent send_json (i : TickInput) (c : Caches) (h : Hub) :
  sent_now (tick send_json i c h)
  = broadcast send_json h (Trash.get_frame (get_frame_now i)).
Proof.
  unfold tick. destruct (aggregate (pump_statuses i) c []) as [c' items].
  reflexivity.
Qed.

(** C3, as the code has it. What a tick hands to [Hub.broadcast] is
    [get_frame()] at the clock reading of the tick, whatever the pump
    reads and the caches are; every subscriber reached receives that
    frame. Its [pumps] list has 8 records, fixed except for their clock
    fields: between two ticks it is the same list with [last_updated] and
    the realtime and transaction [timestamp] set to the new reading, next
    to [ts]. *)
Theorem tick_broadcasts_test_frame send_json (i : TickInput) (c : Caches)
    (h : Hub) (now' : Timestamp) :
  sent_now (tick send_json i c h)
  = broadcast send_json h (Trash.get_frame (get_frame_now i))
  /\ Forall (fun d => d.2 = Trash.get_frame (get_frame_now i))
       (deliveries (sent_now (tick send_json i c h)))
  /\ length (pumps (Trash.get_frame now')) = 8%nat
  /\ ts (Trash.get_frame now') = now'
  /\ pumps (Trash.get_frame now')
     = restamp now' <$> pumps (Trash.get_frame (get_frame_now i)).
Proof.
  split; [apply tick_sent|]. split; [|by repeat split].
  rewrite tick_sent.
  destruct (broadcast_result send_json h (Trash.get_frame (get_frame_now i)))
    as (_ & -> & _).
  apply Forall_fmap, Forall_forall. intros ws _. reflexivity.
Qed.

(** C3, as the claim has it, fails: the [pumps] payload of two ticks is
    not the same once their clock readings differ, here by the half
    second of the tick, as each record carries the reading in
    [last_updated]. *)
Lemma tick_pumps_payload_changes :
  let everyone_receives := fun (_ : WebSocket) (_ : Frame) => @None SendError in
  let idle := {| meta := ∅; last_live := ∅; last_tx := ∅ |} in
  let one := {| clients := [1%nat] |} in
  let tick_at t :=
    tick everyone_receives
      {| frame_ts := t; pump_statuses := []; get_frame_now := t |} idle one in
  (fun d => pumps d.2)
    <$> deliveries (sent_now (tick_at "2025-07-09T15:13:43.099591+00:00"%string))
  <> (fun d => pumps d.2)
       <$> deliveries (sent_now (tick_at "2025-07-09T15:13:43.599591+00:00"%string)).
Proof.
  intros everyone_receives idle one tick_at E.
  apply (f_equal (fun l => (fun p => last_updated (base p)) <$> (head l ≫= head))) in E.
  cbn in E. discriminate E.
Qed.

End Tick.

(** ** Aggregator *)

Section Aggregator.
Import Models WsPumps.

Lemma refresh_meta_known (pid : Z) (tx : option TransactionData) (c : Caches)
    (m : MetaEntry) :
  meta c !! pid = Some m -> refresh_meta pid tx c = c.
Proof. intros Hm. unfold refresh_meta. by rewrite Hm. Qed.

Lemma refresh_meta_keeps (pid : Z) (tx : option TransactionData) (c : Caches) :
  last_live (refresh_meta pid tx c) = last_live c
  /\ last_tx (refresh_meta pid tx c) = last_tx c.
Proof.
  unfold refresh_meta.
  destruct (meta c !! pid); [done|].
  destruct tx as [t|]; [|done].
  by destruct (truthy_float (tx_price_per_unit t)).
Qed.

Lemma read_live_keeps (pid : Z) (l : LiveRead) (c : Caches) :
  meta (read_live pid l c) = meta c /\ last_tx (read_live pid l c) = last_tx c.
Proof. by destruct l as [|[v|]]. Qed.

Lemma process_pump_dispensing (pid : Z) (r : PumpRead) (c : Caches) :
  status (st r) = DISPENSING ->
  process_pump pid r c
  = let c1 := read_live pid (live r) (refresh_meta pid (meta_tx r) c) in
    (reset_on_zero pid c1,
     {| base := st r; realtime := Some (realtime_of pid (rt_now r) c1);
        transaction := None |}).
Proof.
  intros Hst. unfold process_pump.
  destruct (decide (status (st r) = DISPENSING)); [reflexivity|contradiction].
Qed.

Lemma realtime_of_known_price (pid : Z) (now : Timestamp) (c : Caches)
    (m : MetaEntry) (p : Z) (lv : Qc) :
  meta c !! pid = Some m -> price_per_unit m = Some p -> 0 < p ->
  last_live c !! pid = Some lv ->
  realtime_of pid now c
  = {| rt_price_per_unit := Some (p * 10);
       rt_grade := grade m;
       rt_timestamp := now;
       rt_total_amount := Some (fmul (round_float lv 2) (float_of_int 1000));
       rt_volume :=
         Some (py_round
                 (fdiv (fmul (round_float lv 2) (float_of_int 1000))
                       (float_of_int (p * 10))) 3) |}.
Proof.
  intros Hm Hp Hpos Hlv. unfold realtime_of.
  rewrite Hm, Hlv. cbn [mbind option_bind]. rewrite Hp.
  cbn [truthy_int fmap option_fmap option_map].
  replace (p =? 0) with false by (symmetry; apply Z.eqb_neq; lia).
  cbn [negb].
  replace (p * 10 =? 0) with false by (symmetry; apply Z.eqb_neq; lia).
  replace (p * 10 >? 0) with true by (symmetry; apply Z.gtb_lt; lia).
  reflexivity.
Qed.

Lemma process_pump_known_price (pid : Z) (r : PumpRead) (c : Caches)
    (m : MetaEntry) (p : Z) (lv : Qc) :
  status (st r) = DISPENSING ->
  meta c !! pid = Some m -> price_per_unit m = Some p -> 0 < p ->
  last_live (read_live pid (live r) c) !! pid = Some lv ->
  realtime (process_pump pid r c).2
  = Some {| rt_price_per_unit := Some (p * 10);
            rt_grade := grade m;
            rt_timestamp := rt_now r;
            rt_total_amount := Some (fmul (round_float lv 2) (float_of_int 1000));
            rt_volume :=
              Some (py_round
                      (fdiv (fmul (round_float lv 2) (float_of_int 1000))
                            (float_of_int (p * 10))) 3) |}.
Proof.
  intros Hst Hm Hp Hpos Hlv.
  rewrite process_pump_dispensing by exact Hst.
  rewrite (refresh_meta_known _ _ _ _ Hm). cbn [snd realtime]. f_equal.
  apply realtime_of_known_price; try assumption.
  by rewrite (proj1 (read_live_keeps _ _ _)).
Qed.

Lemma qc_eq (x y : Qc) : this x = this y -> x = y.
Proof. intros E. apply Qc_is_canon. by rewrite E. Qed.

(** Float operations on sample values: [0.1] is not a double, 2.01 times
    1000 is not 2010, and 500 / 40000 rounds up to 0.013. *)
Example fl_samples :
  map (fun x => this (fl x)) [num 0; num 1; num 10000; num 0.1; num (-0.1)]
  = [0; 1; 10000;
     3602879701896397 # 36028797018963968;
     -3602879701896397 # 36028797018963968]%Q.
Proof. by vm_compute. Qed.

Example fmul_2_01 :
  this (fmul (round_float (num 2.01) 2) (float_of_int 1000))
  = (8840073487319039 # 4398046511104)%Q.
Proof. by vm_compute. Qed.

Example volume_of_live_0_5_at_40000 :
  py_round (fdiv (fmul (round_float (num 0.5) 2) (float_of_int 1000))
                 (float_of_int 40000)) 3
  = num 0.013.
Proof. apply qc_eq. by vm_compute. Qed.




(** The realtime record of the sample frame of [trash.py] has the price
    81500, "8150 * 10", the total 25400 and the volume 3.116: that is,
    but for one unit in the last digit, the total by the price 8150,
    which is 3.117; the total by the tenfold price, which is what the
    DISPENSING branch computes, is 0.312. *)
Example sample_frame_volume :
  (rt_volume <$> (nth_error (pumps (Trash.get_frame "")) 3 ≫= realtime))
  = Some (Some (num 3.116))
  /\ py_round (fdiv (num 25400) (float_of_int 8150)) 3 = num 3.117
  /\ py_round (fdiv (num 25400) (float_of_int 81500)) 3 = num 0.312.
Proof. split; [reflexivity|]. split; apply qc_eq; by vm_compute. Qed.


Lemma reset_on_zero_keeps (pid : Z) (c : Caches) :
  meta (reset_on_zero pid c) = meta c
  /\ last_live (reset_on_zero pid c) = last_live c.
Proof.
  unfold reset_on_zero.
  destruct (last_live c !! pid) as [lv|]; [|done].
  by destruct (bool_decide (lv = of_int 0)).
Qed.

Lemma reset_on_zero_last_tx (pid : Z) (c : Caches) :
  last_tx (reset_on_zero pid c)
  = if decide (last_live c !! pid = Some (of_int 0))
    then delete pid (last_tx c) else last_tx c.
Proof.
  unfold reset_on_zero.
  destruct (last_live c !! pid) as [lv|] eqn:Hlv.
  - destruct (bool_decide_reflect (lv = of_int 0)) as [->|Hne].
    + by rewrite decide_True.
    + rewrite decide_False; [done|congruence].
  - by rewrite decide_False.
Qed.

Lemma read_live_last_live (pid : Z) (l : LiveRead) (c : Caches) :
  last_live (read_live pid l c)
  = match l with
    | LiveValue (Some v) => <[pid := v]> (last_live c)
    | _ => last_live c
    end.
Proof. by destruct l as [|[v|]]. Qed.



End Aggregator.

(** * Further properties of the code *)

(** ** Codec: domains, inverses and frames *)

Section CodecFrames.
Import Scanner.

Lemma pump_id_to_nibble_out_of_range (a : Z) :
  ~ (1 <= a <= 16) -> pump_id_to_nibble a = Raise (InvalidPumpId a).
Proof.
  intros Ha. unfold pump_id_to_nibble.
  destruct (Z.eqb_spec a 16) as [->|_]; [lia|].
  destruct (Z.leb_spec 1 a), (Z.leb_spec a 15); cbn [andb]; (reflexivity || lia).
Qed.

Lemma nibble_to_pump_id_out_of_range (n : Z) :
  ~ (0 <= n <= 15) -> nibble_to_pump_id n = Raise (InvalidPumpNibble n).
Proof.
  intros Hn. unfold nibble_to_pump_id.
  destruct (Z.eqb_spec n 0) as [->|_]; [lia|].
  destruct (Z.leb_spec 1 n), (Z.leb_spec n 15); cbn [andb]; (reflexivity || lia).
Qed.

(** [pump_id_to_nibble] raises exactly outside [1, 16], naming the
    offending id, and inside it returns [pump_id mod 16], a value in
    [0, 15]. *)
Theorem pump_id_to_nibble_domain (pump_id : Z) :
  (raises (pump_id_to_nibble pump_id) <-> ~ (1 <= pump_id <= 16))
  /\ (pump_id_to_nibble pump_id = Raise (InvalidPumpId pump_id)
      <-> ~ (1 <= pump_id <= 16))
  /\ (pump_id_to_nibble pump_id = Ok (pump_id mod 16) <-> 1 <= pump_id <= 16)
  /\ (1 <= pump_id <= 16 -> 0 <= pump_id mod 16 <= 15).
Proof.
  destruct (decide (1 <= pump_id <= 16)) as [Hin|Hout].
  - rewrite (pump_id_to_nibble_in_range _ Hin).
    assert (Hmod : (if pump_id =? 16 then 0 else pump_id) = pump_id mod 16).
    { destruct (Z.eqb_spec pump_id 16) as [->|?]; [reflexivity|].
      symmetry. apply Z.mod_small. lia. }
    rewrite Hmod. cbn [raises].
    assert (Hb : 0 <= pump_id mod 16 <= 15)
      by (pose proof (Z.mod_pos_bound pump_id 16); lia).
    split; [tauto|]. split; [split; [discriminate|tauto]|].
    split; [tauto|]. intros _. exact Hb.
  - rewrite (pump_id_to_nibble_out_of_range _ Hout). cbn [raises].
    split; [tauto|]. split; [tauto|].
    split; [split; [discriminate|tauto]|]. intros Hin. contradiction.
Qed.

Lemma address_mod_16_unique (p q : Z) :
  1 <= p <= 16 -> 1 <= q <= 16 -> p mod 16 = q mod 16 -> p = q.
Proof.
  intros Hp Hq Hmod.
  destruct (decide (p = 16)) as [->|Hp16], (decide (q = 16)) as [->|Hq16];
    [reflexivity| | |].
  - rewrite (Z.mod_small q) in Hmod by lia. change (16 mod 16) with 0 in Hmod. lia.
  - rewrite (Z.mod_small p) in Hmod by lia. change (16 mod 16) with 0 in Hmod. lia.
  - rewrite !Z.mod_small in Hmod by lia. exact Hmod.
Qed.

(** [nibble_to_pump_id] raises exactly outside [0, 15], naming the
    offending nibble, and inside it returns the one address of [1, 16]
    that is the nibble modulo 16. *)
Theorem nibble_to_pump_id_domain (nibble : Z) :
  (raises (nibble_to_pump_id nibble) <-> ~ (0 <= nibble <= 15))
  /\ (nibble_to_pump_id nibble = Raise (InvalidPumpNibble nibble)
      <-> ~ (0 <= nibble <= 15))
  /\ (forall pump_id, nibble_to_pump_id nibble = Ok pump_id
      <-> 0 <= nibble <= 15 /\ 1 <= pump_id <= 16 /\ pump_id mod 16 = nibble).
Proof.
  destruct (decide (0 <= nibble <= 15)) as [Hin|Hout].
  - rewrite (nibble_to_pump_id_in_range nibble) by lia. cbn [raises].
    set (r := if nibble =? 0 then 16 else nibble).
    assert (Hr : 1 <= r <= 16 /\ r mod 16 = nibble).
    { subst r. destruct (Z.eqb_spec nibble 0) as [->|?]; [split; [lia|reflexivity]|].
      split; [lia|]. apply Z.mod_small. lia. }
    split; [tauto|]. split; [split; [discriminate|tauto]|].
    intros pump_id. split.
    + intros [= <-]. tauto.
    + intros (_ & Hp & Hmod). f_equal.
      apply address_mod_16_unique; [tauto|exact Hp|].
      destruct Hr as [_ Hr]. by rewrite Hr, Hmod.
  - rewrite (nibble_to_pump_id_out_of_range _ Hout). cbn [raises].
    split; [tauto|]. split; [tauto|].
    intros pump_id. split; [discriminate|]. intros (Hin & _). contradiction.
Qed.

(** Every nibble of [0, 15] is the nibble of the address it converts
    to: [pump_id_to_nibble] undoes [nibble_to_pump_id]. *)
Theorem pump_id_of_nibble_roundtrip (nibble : Z) :
  0 <= nibble <= 15 ->
  exists pump_id,
    nibble_to_pump_id nibble = Ok pump_id
    /\ 1 <= pump_id <= 16
    /\ pump_id_to_nibble pump_id = Ok nibble.
Proof.
  intros Hn. exists (if nibble =? 0 then 16 else nibble).
  split; [apply nibble_to_pump_id_in_range; lia|].
  destruct (Z.eqb_spec nibble 0) as [->|Hne].
  - split; [lia|reflexivity].
  - split; [lia|].
    rewrite pump_id_to_nibble_in_range by lia.
    destruct (Z.eqb_spec nibble 16); [lia|reflexivity].
Qed.

Lemma pump_id_of_nibble_roundtrip_at_0 :
  exists pump_id,
    nibble_to_pump_id 0 = Ok pump_id
    /\ 1 <= pump_id <= 16
    /\ pump_id_to_nibble pump_id = Ok 0.
Proof. exact (pump_id_of_nibble_roundtrip 0 ltac:(lia)). Defined.

Lemma bytes1_in_range (v : Z) :
  0 <= v < 256 -> exists b, bytes1 v = Ok [b] /\ int_of_byte b = v.
Proof.
  intros Hv. unfold bytes1.
  destruct (Z.leb_spec 0 v), (Z.ltb_spec v 256); try lia. cbn [andb].
  destruct (Byte.of_N (Z.to_N v)) as [b|] eqn:E.
  - exists b. split; [reflexivity|].
    apply Byte.to_of_N in E. unfold int_of_byte. rewrite E. lia.
  - apply Byte.of_N_None_iff in E. lia.
Qed.

Lemma nibbles_of_word (w : Z) :
  0 <= w < 256 ->
  Z.land w 0xF = w mod 16 /\ Z.land (Z.shiftr w 4) 0xF = w / 16.
Proof.
  intros Hw. change 0xF with (Z.ones 4).
  rewrite !Z.land_ones by lia. rewrite Z.shiftr_div_pow2 by lia.
  change (2 ^ 4) with 16. split; [reflexivity|].
  apply Z.mod_small. split; [apply Z.div_pos; lia|].
  apply Z.div_lt_upper_bound; lia.
Qed.

(** The poll command of an address of [1, 16] is one byte: command code
    0 in the high nibble and [pump_id mod 16] in the low one; read as a
    status frame it parses back to that address, with status code 0.
    For any other address [build_status_command] raises the invalid-id
    error, never a byte-range one. *)
Theorem build_status_command_frame (pump_id : Z) :
  (1 <= pump_id <= 16 ->
   exists b,
     build_status_command pump_id = Ok [b]
     /\ int_of_byte b = pump_id mod 16
     /\ parse_status_response [b] = Ok (pump_id, 0))
  /\ (~ (1 <= pump_id <= 16) ->
      build_status_command pump_id = Raise (InvalidPumpId pump_id)).
Proof.
  split.
  - intros Hin. unfold build_status_command.
    rewrite (pump_id_to_nibble_in_range _ Hin). cbn [bind].
    set (n := if pump_id =? 16 then 0 else pump_id).
    assert (Hn : 0 <= n <= 15 /\ n = pump_id mod 16).
    { subst n. destruct (Z.eqb_spec pump_id 16) as [->|?]; [split; [lia|reflexivity]|].
      split; [lia|]. symmetry. apply Z.mod_small. lia. }
    destruct Hn as [Hn Hmod].
    rewrite Z.shiftl_0_l, Z.lor_0_l.
    destruct (bytes1_in_range n) as (b & -> & Hb); [lia|].
    exists b. split; [reflexivity|]. split; [congruence|].
    rewrite parse_one_byte. cbn zeta.
    destruct (nibbles_of_word (int_of_byte b)) as [-> ->]; [apply int_of_byte_range|].
    rewrite Hb, (Z.mod_small n), (Z.div_small n) by lia.
    f_equal. f_equal. subst n.
    destruct (Z.eqb_spec pump_id 16) as [->|?]; [reflexivity|].
    destruct (Z.eqb_spec pump_id 0); [lia|reflexivity].
  - intros Hout. unfold build_status_command.
    by rewrite (pump_id_to_nibble_out_of_range _ Hout).
Qed.

(** How a status frame is laid out: one byte parses to address
    [pump_id] and status code [status_code] exactly when the byte is
    [16 * status_code + pump_id mod 16], with the address in [1, 16] and
    the code in [0, 15]. So two different bytes never parse to the same
    pair, and every such pair is the parse of one byte. *)
Theorem parse_status_response_layout (b : byte) (pump_id status_code : Z) :
  parse_status_response [b] = Ok (pump_id, status_code)
  <-> int_of_byte b = 16 * status_code + pump_id mod 16
      /\ 1 <= pump_id <= 16 /\ 0 <= status_code <= 15.
Proof.
  rewrite parse_one_byte. cbn zeta.
  pose proof (int_of_byte_range b) as Hw.
  destruct (nibbles_of_word _ Hw) as [-> ->].
  set (w := int_of_byte b) in *.
  pose proof (Z.div_mod w 16 ltac:(lia)) as Hdm.
  pose proof (Z.mod_pos_bound w 16 ltac:(lia)) as Hm.
  assert (Hd : 0 <= w / 16 <= 15).
  { split; [apply Z.div_pos; lia|].
    enough (w / 16 < 16) by lia. apply Z.div_lt_upper_bound; lia. }
  set (r := if w mod 16 =? 0 then 16 else w mod 16).
  assert (Hr : 1 <= r <= 16 /\ r mod 16 = w mod 16).
  { subst r. destruct (Z.eqb_spec (w mod 16) 0) as [E|?].
    - rewrite E. split; [lia|reflexivity].
    - split; [lia|]. apply Z.mod_small. lia. }
  split.
  - intros [= <- <-]. destruct Hr as [Hr ->]. lia.
  - intros (Hbyte & Hp & Hs).
    pose proof (Z.mod_pos_bound pump_id 16 ltac:(lia)) as Hpm.
    assert (Hs' : w / 16 = status_code).
    { symmetry. apply (Z.div_unique w 16 status_code (pump_id mod 16)); lia. }
    assert (Hm' : w mod 16 = pump_id mod 16).
    { symmetry. apply (Z.mod_unique w 16 status_code (pump_id mod 16)); lia. }
    f_equal. f_equal; [|exact Hs'].
    apply address_mod_16_unique; [tauto|exact Hp|].
    destruct Hr as [_ ->]. exact Hm'.
Qed.

End CodecFrames.

(** ** Scanner: what a probe and a scan do *)

Section ScanProbes.
Import Scanner.
Context {P : Type} `{SerialPort P}.

Lemma status_code_offline_iff (c : Z) :
  status_code_to_enum c = OFFLINE
  <-> c ∉ [0x0; 0x6; 0x7; 0x8; 0x9; 0xA; 0xB; 0xC].
Proof.
  unfold status_code_to_enum. split.
  - intros Hoff Hin.
    repeat (apply elem_of_cons in Hin as [->|Hin]; [by vm_compute in Hoff|]).
    by apply elem_of_nil in Hin.
  - intros Hnot. unfold status_map.
    rewrite (not_elem_of_list_to_map_1 (M := gmap Z)); [reflexivity|exact Hnot].
Qed.

Lemma build_status_command_valid (a : Z) (command : list byte) :
  build_status_command a = Ok command -> 1 <= a <= 16.
Proof.
  intros Hb. destruct (decide (1 <= a <= 16)) as [Hin|Hout]; [exact Hin|].
  unfold build_status_command in Hb.
  rewrite (pump_id_to_nibble_out_of_range _ Hout) in Hb. discriminate.
Qed.

Lemma build_status_command_echo (a : Z) :
  1 <= a <= 16 ->
  exists command,
    build_status_command a = Ok command
    /\ parse_status_response command = Ok (a, 0).
Proof.
  intros Hin. unfold build_status_command.
  rewrite (pump_id_to_nibble_in_range _ Hin). cbn [bind].
  rewrite Z.shiftl_0_l, Z.lor_0_l.
  set (n := if a =? 16 then 0 else a).
  assert (Hn : 0 <= n <= 15) by (subst n; destruct (Z.eqb_spec a 16); lia).
  destruct (bytes1_in_range n) as (b & -> & Hb); [lia|].
  eexists. split; [reflexivity|].
  rewrite parse_one_byte. cbn zeta.
  destruct (nibbles_of_word (int_of_byte b)) as [-> ->]; [apply int_of_byte_range|].
  rewrite Hb, (Z.mod_small n), (Z.div_small n) by lia.
  f_equal. f_equal. subst n.
  destruct (Z.eqb_spec a 16) as [->|?]; [reflexivity|].
  destruct (Z.eqb_spec a 0); [lia|reflexivity].
Qed.

(** The state in which the answer is handled: the log lines of the
    request are written and the port has taken the command. *)
Lemma probe_steps (st : ScanState P) (a : Z) (command : list byte)
    (outcome : ReadOutcome) (p' : P) :
  build_status_command a = Ok command ->
  ser_read (port_after_write st command) 1 = (outcome, p') ->
  exists st1,
    discovered_pumps st1 = discovered_pumps st
    /\ ser st1 = p'
    /\ probe st a
       = Ok (with_ser ser_reset_input_buffer
               match outcome with
               | ReadBytes (b :: rest) => handle_response a (b :: rest) st1
               | ReadBytes [] => emit [LogNoResponse a] st1
               | ReadFails => emit [LogReadError] st1
               end).
Proof.
  intros Hbuild Hread. unfold probe, port_after_write in *. rewrite Hbuild.
  cbn [bind emit with_ser ser discovered_pumps log]. rewrite Hread.
  eexists {| ser := p'; discovered_pumps := discovered_pumps st; log := _ |}.
  split; [reflexivity|]. split; [reflexivity|].
  destruct outcome as [[|b rest]|]; reflexivity.
Qed.

Lemma probe_total (st : ScanState P) (a : Z) :
  1 <= a <= 16 -> exists st', probe st a = Ok st'.
Proof.
  intros Hin. destruct (build_status_command_echo a Hin) as (command & Hb & _).
  destruct (ser_read (port_after_write st command) 1) as [outcome p'] eqn:Hread.
  destruct (probe_steps st a command outcome p' Hb Hread) as (st1 & _ & _ & ->).
  eauto.
Qed.

Lemma probe_invalid (st : ScanState P) (a : Z) :
  ~ (1 <= a <= 16) -> probe st a = Raise (InvalidPumpId a).
Proof.
  intros Hout. unfold probe, build_status_command.
  by rewrite (pump_id_to_nibble_out_of_range _ Hout).
Qed.

Lemma probe_adds_well_formed (st st' : ScanState P) (a : Z) :
  probe st a = Ok st' ->
  exists new,
    discovered_pumps st' = discovered_pumps st ++ new
    /\ (address <$> new) `sublist_of` [a]
    /\ Forall well_formed new.
Proof.
  intros Hprobe.
  assert (Hin : 1 <= a <= 16).
  { destruct (decide (1 <= a <= 16)) as [?|Hout]; [done|].
    rewrite (probe_invalid _ _ Hout) in Hprobe. discriminate. }
  destruct (build_status_command_echo a Hin) as (command & Hb & _).
  destruct (ser_read (port_after_write st command) 1) as [outcome p'] eqn:Hread.
  destruct (probe_steps st a command outcome p' Hb Hread) as (st1 & Hd & _ & Heq).
  rewrite Heq in Hprobe. injection Hprobe as <-.
  cbn [with_ser discovered_pumps].
  assert (Hnone : forall l, l = discovered_pumps st ->
            exists new, l = discovered_pumps st ++ new
                        /\ (address <$> new) `sublist_of` [a]
                        /\ Forall well_formed new).
  { intros l ->. exists []. rewrite app_nil_r.
    split; [done|]. split; [apply sublist_nil_l|constructor]. }
  destruct outcome as [[|b rest]|]; [by apply Hnone| |by apply Hnone].
  destruct (handle_response_appends a (b :: rest) st1)
    as [Hsame|(sc & Hparse & Hon & Happ)].
  - apply Hnone. by rewrite Hsame.
  - rewrite Happ, Hd. eexists [_]. split; [reflexivity|].
    split; [reflexivity|]. constructor; [|constructor].
    unfold well_formed. cbn. auto.
Qed.

Lemma for_each_adds_well_formed (addresses : list Z) (st st' : ScanState P) :
  for_each addresses st = Ok st' ->
  exists new,
    discovered_pumps st' = discovered_pumps st ++ new
    /\ (address <$> new) `sublist_of` addresses
    /\ Forall well_formed new.
Proof.
  revert st. induction addresses as [|a rest IH]; intros st Hfor.
  - injection Hfor as <-. exists []. rewrite app_nil_r.
    split; [done|]. split; [apply sublist_nil_l|constructor].
  - cbn [for_each] in Hfor.
    destruct (probe st a) as [st1|e] eqn:Hprobe; [|discriminate].
    cbn [bind] in Hfor.
    destruct (probe_adds_well_formed _ _ _ Hprobe) as (new1 & Hd1 & Hs1 & Hw1).
    destruct (IH _ Hfor) as (new2 & Hd2 & Hs2 & Hw2).
    exists (new1 ++ new2). rewrite Hd2, Hd1, app_assoc.
    split; [done|]. split; [|by apply Forall_app].
    rewrite fmap_app. change (a :: rest) with ([a] ++ rest).
    by apply sublist_app.
Qed.

Lemma for_each_total (addresses : list Z) (st : ScanState P) :
  Forall (fun a => 1 <= a <= 16) addresses ->
  exists st', for_each addresses st = Ok st'.
Proof.
  intros Hall. revert st. induction Hall as [|a rest Ha _ IH]; intros st.
  - by eexists.
  - cbn [for_each]. destruct (probe_total st a Ha) as [st1 ->]. cbn [bind].
    apply IH.
Qed.

(** A probe that reads nothing (a timeout) or whose read raises adds no
    pump: the discovered list is unchanged, the last log line says which
    of the two happened, and the input buffer of the port is reset. *)
Theorem probe_without_answer (st : ScanState P) (a : Z) (command : list byte)
    (outcome : ReadOutcome) (p' : P) :
  build_status_command a = Ok command ->
  ser_read (port_after_write st command) 1 = (outcome, p') ->
  outcome = ReadBytes [] \/ outcome = ReadFails ->
  exists st',
    probe st a = Ok st'
    /\ discovered_pumps st' = discovered_pumps st
    /\ ser st' = ser_reset_input_buffer p'
    /\ last (log st')
       = Some (match outcome with
               | ReadFails => LogReadError
               | ReadBytes _ => LogNoResponse a
               end).
Proof.
  intros Hb Hread Hout.
  destruct (probe_steps st a command outcome p' Hb Hread) as (st1 & Hd & Hs & ->).
  eexists. split; [reflexivity|].
  destruct Hout as [-> | ->]; cbn [with_ser emit ser discovered_pumps log];
    rewrite Hd, Hs, last_snoc; done.
Qed.

(** A probe whose answer echoes the polled address adds exactly one
    entry, the polled address with the status of the code and the raw
    byte, when that status is not OFFLINE; when it is (a code outside
    the table, such as 0xD), nothing is added and the pump is logged as
    offline. *)
Theorem probe_with_matching_answer (st : ScanState P) (a : Z)
    (command response : list byte) (p' : P) (sc : Z) :
  build_status_command a = Ok command ->
  ser_read (port_after_write st command) 1 = (ReadBytes response, p') ->
  parse_status_response response = Ok (a, sc) ->
  exists st',
    probe st a = Ok st'
    /\ ser st' = ser_reset_input_buffer p'
    /\ (sc ∈ [0x0; 0x6; 0x7; 0x8; 0x9; 0xA; 0xB; 0xC] ->
        discovered_pumps st'
        = discovered_pumps st
          ++ [{| address := a; status := status_code_to_enum sc;
                 status_code := sc; response_raw := response |}]
        /\ last (log st') = Some (LogAdded a))
    /\ (sc ∉ [0x0; 0x6; 0x7; 0x8; 0x9; 0xA; 0xB; 0xC] ->
        discovered_pumps st' = discovered_pumps st
        /\ last (log st') = Some (LogIsOffline a)).
Proof.
  intros Hb Hread Hparse.
  destruct (probe_steps st a command _ p' Hb Hread) as (st1 & Hd & Hs & ->).
  assert (Hne : exists b, response = [b]).
  { unfold parse_status_response in Hparse.
    destruct response as [|b [|b' rest]]; try discriminate. eauto. }
  destruct Hne as [b ->].
  eexists. split; [reflexivity|].
  unfold handle_response. rewrite Hparse, Z.eqb_refl.
  destruct (decide (status_code_to_enum sc <> OFFLINE)) as [Hon|Hoff];
    cbn; rewrite ?Hd, ?Hs, ?last_snoc;
    (split; [reflexivity|]); split; intros Hsc.
  - done.
  - exfalso. apply Hon. by apply status_code_offline_iff.
  - exfalso. apply Hoff. intros Hoff'.
    by apply status_code_offline_iff in Hoff'.
  - done.
Qed.

(** A port that gives the command back as the answer (an echo on the
    line) makes the probe take the polled address for a pump in
    DATA_ERROR: the command byte parses as a status frame of that
    address with code 0. *)
Theorem probe_takes_echo_for_pump (st : ScanState P) (a : Z)
    (command : list byte) (p' : P) :
  build_status_command a = Ok command ->
  ser_read (port_after_write st command) 1 = (ReadBytes command, p') ->
  exists st',
    probe st a = Ok st'
    /\ discovered_pumps st'
       = discovered_pumps st
         ++ [{| address := a; status := DATA_ERROR;
                status_code := 0; response_raw := command |}].
Proof.
  intros Hb Hread.
  destruct (probe_steps st a command _ p' Hb Hread) as (st1 & Hd & Hs & ->).
  destruct (build_status_command_echo a (build_status_command_valid _ _ Hb))
    as (command' & Hb' & Hparse).
  assert (command' = command) as -> by congruence.
  assert (Hne : exists b, command = [b]).
  { unfold parse_status_response in Hparse.
    destruct command as [|b [|b' rest]]; try discriminate. eauto. }
  destruct Hne as [b ->].
  eexists. split; [reflexivity|].
  unfold handle_response. rewrite Hparse, Z.eqb_refl.
  change (status_code_to_enum 0) with DATA_ERROR.
  destruct (decide (DATA_ERROR <> OFFLINE)) as [_|Hoff]; [|by destruct Hoff].
  cbn. by rewrite Hd.
Qed.

(** Over a port whose [write], [flush] and [reset_input_buffer] do not
    raise, the loop with the exceptions of the port is the loop without
    them. *)
Lemma probe_raising_never_raising (st : ScanState P) (a : Z) :
  probe_raising st a
  = match probe st a with
    | Ok st' => Finished st'
    | Raise e => Aborted (CodecError e) (emit [LogTesting a] st)
    end.
Proof.
  unfold probe_raising, probe, port_after_write.
  destruct (build_status_command a) as [command|e]; [|reflexivity].
  cbn [bind port_write port_flush port_read port_reset_input_buffer
       never_raising emit with_ser ser discovered_pumps log].
  destruct (ser_read (ser_flush (ser_write (ser st) command)) 1) as [outcome p'].
  reflexivity.
Qed.

Lemma for_each_raising_never_raising (addresses : list Z) (st st' : ScanState P) :
  for_each addresses st = Ok st' <-> for_each_raising addresses st = Finished st'.
Proof.
  revert st. induction addresses as [|a rest IH]; intros st;
    cbn [for_each for_each_raising].
  - split; intros Heq; injection Heq as <-; reflexivity.
  - rewrite probe_raising_never_raising.
    destruct (probe st a) as [st1|e]; cbn [bind]; [apply IH|].
    split; discriminate.
Qed.

End ScanProbes.

Lemma probe_without_answer_at_2 :
  exists st',
    Scanner.probe
      {| Scanner.ser := Scanner.bus_3_echoes_7;
         Scanner.discovered_pumps := []; Scanner.log := [] |} 2 = Ok st'
    /\ Scanner.discovered_pumps st' = []
    /\ Scanner.ser st'
       = Scanner.ser_reset_input_buffer
           {| Scanner.reply := Scanner.reply Scanner.bus_3_echoes_7;
              Scanner.input_buffer := [] |}
    /\ last (Scanner.log st') = Some (Scanner.LogNoResponse 2).
Proof.
  refine (probe_without_answer
            {| Scanner.ser := Scanner.bus_3_echoes_7;
               Scanner.discovered_pumps := []; Scanner.log := [] |}
            2 [x02] (Scanner.ReadBytes [])
            {| Scanner.reply := Scanner.reply Scanner.bus_3_echoes_7;
               Scanner.input_buffer := [] |} _ _ _).
  - reflexivity.
  - reflexivity.
  - left. reflexivity.
Defined.

Lemma probe_with_matching_answer_at_1 :
  exists st',
    Scanner.probe
      {| Scanner.ser := Scanner.bus_3_echoes_7;
         Scanner.discovered_pumps := []; Scanner.log := [] |} 1 = Ok st'
    /\ Scanner.ser st'
       = Scanner.ser_reset_input_buffer
           {| Scanner.reply := Scanner.reply Scanner.bus_3_echoes_7;
              Scanner.input_buffer := [] |}
    /\ (6 ∈ [0x0; 0x6; 0x7; 0x8; 0x9; 0xA; 0xB; 0xC] ->
        Scanner.discovered_pumps st'
        = [] ++ [{| Scanner.address := 1;
                    Scanner.status := Scanner.status_code_to_enum 6;
                    Scanner.status_code := 6;
                    Scanner.response_raw := [x61] |}]
        /\ last (Scanner.log st') = Some (Scanner.LogAdded 1))
    /\ (6 ∉ [0x0; 0x6; 0x7; 0x8; 0x9; 0xA; 0xB; 0xC] ->
        Scanner.discovered_pumps st' = []
        /\ last (Scanner.log st') = Some (Scanner.LogIsOffline 1)).
Proof.
  refine (probe_with_matching_answer
            {| Scanner.ser := Scanner.bus_3_echoes_7;
               Scanner.discovered_pumps := []; Scanner.log := [] |}
            1 [x01] [x61]
            {| Scanner.reply := Scanner.reply Scanner.bus_3_echoes_7;
               Scanner.input_buffer := [] |} 6 _ _ _).
  - reflexivity.
  - reflexivity.
  - reflexivity.
Defined.

Lemma probe_takes_echo_for_pump_at_5 :
  exists st',
    Scanner.probe
      {| Scanner.ser := Scanner.loopback_bus;
         Scanner.discovered_pumps := []; Scanner.log := [] |} 5 = Ok st'
    /\ Scanner.discovered_pumps st'
       = [] ++ [{| Scanner.address := 5; Scanner.status := Scanner.DATA_ERROR;
                   Scanner.status_code := 0; Scanner.response_raw := [x05] |}].
Proof.
  refine (probe_takes_echo_for_pump
            {| Scanner.ser := Scanner.loopback_bus;
               Scanner.discovered_pumps := []; Scanner.log := [] |}
            5 [x05]
            {| Scanner.reply := Scanner.reply Scanner.loopback_bus;
               Scanner.input_buffer := [] |} _ _).
  - reflexivity.
  - reflexivity.
Defined.

(** ** Scanner: the scan, with the exceptions of the port *)

Section RaisingScanProbes.
Import Scanner.
Context {P : Type} `{RaisingPort P}.

Lemma probe_raising_invalid (st : ScanState P) (a : Z) :
  ~ (1 <= a <= 16) ->
  probe_raising st a
  = Aborted (CodecError (InvalidPumpId a)) (emit [LogTesting a] st).
Proof.
  intros Hout. unfold probe_raising, build_status_command.
  by rewrite (pump_id_to_nibble_out_of_range _ Hout).
Qed.

(** How an iteration can be left by an exception: the [ValueError] of
    an address outside [1, 16], or an exception of the port. *)
Lemma probe_raising_aborts (st st' : ScanState P) (a : Z) (e : Abort) :
  probe_raising st a = Aborted e st' ->
  (e = CodecError (InvalidPumpId a) /\ ~ (1 <= a <= 16))
  \/ exists what, e = PortError what.
Proof.
  destruct (decide (1 <= a <= 16)) as [Hin|Hout].
  - destruct (build_status_command_echo a Hin) as (command & Hb & _).
    unfold probe_raising. rewrite Hb.
    cbn [emit with_ser ser discovered_pumps log].
    destruct (port_write (ser st) command) as [what|written];
      [intros [= <- _]; eauto|].
    destruct (port_flush written) as [what|flushed]; [intros [= <- _]; eauto|].
    destruct (port_read flushed 1) as [outcome p'].
    match goal with
    | |- context [port_reset_input_buffer ?p] =>
        destruct (port_reset_input_buffer p) as [what|reset]
    end; [intros [= <- _]; eauto|discriminate].
  - rewrite (probe_raising_invalid _ _ Hout). intros [= <- _]. auto.
Qed.

(** Finished or not, an iteration adds at most the polled address, and
    then as a well-formed entry. *)
Lemma probe_raising_adds_well_formed (st : ScanState P) (a : Z) :
  exists new,
    discovered_pumps (reached (probe_raising st a)) = discovered_pumps st ++ new
    /\ (address <$> new) `sublist_of` [a]
    /\ Forall well_formed new.
Proof.
  assert (Hnone : forall l, l = discovered_pumps st ->
            exists new, l = discovered_pumps st ++ new
                        /\ (address <$> new) `sublist_of` [a]
                        /\ Forall well_formed new).
  { intros l ->. exists []. rewrite app_nil_r.
    split; [done|]. split; [apply sublist_nil_l|constructor]. }
  destruct (decide (1 <= a <= 16)) as [Hin|Hout];
    [|rewrite (probe_raising_invalid _ _ Hout); by apply Hnone].
  destruct (build_status_command_echo a Hin) as (command & Hb & _).
  unfold probe_raising. rewrite Hb.
  cbn [emit with_ser ser discovered_pumps log].
  destruct (port_write (ser st) command) as [what|written]; [by apply Hnone|].
  destruct (port_flush written) as [what|flushed]; [by apply Hnone|].
  destruct (port_read flushed 1) as [outcome p'].
  match goal with
  | |- context [port_reset_input_buffer (ser ?s)] =>
      assert (Hst2 : exists new,
                discovered_pumps s = discovered_pumps st ++ new
                /\ (address <$> new) `sublist_of` [a]
                /\ Forall well_formed new);
      [|destruct (port_reset_input_buffer (ser s)) as [what|reset]; exact Hst2]
  end.
  destruct outcome as [[|b rest]|]; [by apply Hnone| |by apply Hnone].
  match goal with
  | |- context [handle_response a (b :: rest) ?s1] =>
      destruct (handle_response_appends a (b :: rest) s1)
        as [Hsame|(sc & Hparse & Hon & Happ)]
  end.
  - apply Hnone. by rewrite Hsame.
  - rewrite Happ. eexists [_]. split; [reflexivity|].
    split; [reflexivity|]. constructor; [|constructor].
    unfold well_formed. cbn. auto.
Qed.

Lemma for_each_raising_adds_well_formed (addresses : list Z) (st : ScanState P) :
  exists new,
    discovered_pumps (reached (for_each_raising addresses st))
    = discovered_pumps st ++ new
    /\ (address <$> new) `sublist_of` addresses
    /\ Forall well_formed new.
Proof.
  revert st. induction addresses as [|a rest IH]; intros st.
  - exists []. cbn. rewrite app_nil_r.
    split; [done|]. split; [apply sublist_nil_l|constructor].
  - cbn [for_each_raising].
    destruct (probe_raising_adds_well_formed st a) as (new1 & Hd1 & Hs1 & Hw1).
    destruct (probe_raising st a) as [st1|e st1]; cbn [reached] in *.
    + destruct (IH st1) as (new2 & Hd2 & Hs2 & Hw2).
      exists (new1 ++ new2). rewrite Hd2, Hd1, app_assoc.
      split; [done|]. split; [|by apply Forall_app].
      rewrite fmap_app. change (a :: rest) with ([a] ++ rest).
      by apply sublist_app.
    + exists new1. split; [done|]. split; [|done].
      etrans; [exact Hs1|]. apply sublist_skip, sublist_nil_l.
Qed.

Lemma for_each_raising_aborts (addresses : list Z) (st st' : ScanState P)
    (e : Abort) :
  Forall (fun a => 1 <= a <= 16) addresses ->
  for_each_raising addresses st = Aborted e st' ->
  exists what, e = PortError what.
Proof.
  intros Hall. revert st.
  induction Hall as [|a rest Ha _ IH]; intros st; cbn [for_each_raising];
    [discriminate|].
  destruct (probe_raising st a) as [st1|e1 st1] eqn:Hprobe; [apply IH|].
  intros [= -> _].
  destruct (probe_raising_aborts _ _ _ _ Hprobe) as [[_ Hout]|Hport];
    [contradiction|exact Hport].
Qed.

Lemma for_each_raising_finishes (addresses : list Z) (st : ScanState P) :
  Forall (fun a => 1 <= a <= 16) addresses ->
  (forall p command, exists p', port_write p command = inr p') ->
  (forall p, exists p', port_flush p = inr p') ->
  (forall p, exists p', port_reset_input_buffer p = inr p') ->
  exists st', for_each_raising addresses st = Finished st'.
Proof.
  intros Hall Hwrite Hflush Hreset. revert st.
  induction Hall as [|a rest Ha _ IH]; intros st; cbn [for_each_raising];
    [by eexists|].
  destruct (probe_raising st a) as [st1|e st1] eqn:Hprobe; [apply IH|].
  exfalso. revert Hprobe.
  destruct (build_status_command_echo a Ha) as (command & Hb & _).
  unfold probe_raising. rewrite Hb.
  cbn [emit with_ser ser discovered_pumps log].
  destruct (Hwrite (ser st) command) as [written ->].
  destruct (Hflush written) as [flushed ->].
  destruct (port_read flushed 1) as [outcome p'].
  match goal with
  | |- context [port_reset_input_buffer ?p] =>
      destruct (Hreset p) as [reset ->]
  end.
  discriminate.
Qed.

(** The scan of the addresses 1 to 16, each call of the port being
    able to raise. However the scan ends, after the sixteenth address or
    by an exception, every entry of [discovered_pumps] is well formed:
    an address of [1, 16], a status other than OFFLINE that is the
    status of the recorded code, and a raw response that parses to the
    address and the code; the addresses come in increasing order without
    repetition, so there are at most 16 entries. The only exception that
    ends the scan early is one of the port ([write], [flush] or
    [reset_input_buffer]): no address of the range is refused by
    [build_status_command]. Over a port whose three calls never raise
    the scan reaches the end of the range. *)
Theorem scan_discovers_well_formed (port : P) :
  (Forall well_formed (discovered_pumps (reached (scan_raising port)))
   /\ (address <$> discovered_pumps (reached (scan_raising port)))
        `sublist_of` [1; 2; 3; 4; 5; 6; 7; 8; 9; 10; 11; 12; 13; 14; 15; 16]
   /\ NoDup (address <$> discovered_pumps (reached (scan_raising port)))
   /\ (length (discovered_pumps (reached (scan_raising port))) <= 16)%nat)
  /\ (forall e st', scan_raising port = Aborted e st' ->
      exists what, e = PortError what)
  /\ ((forall p command, exists p', port_write p command = inr p') ->
      (forall p, exists p', port_flush p = inr p') ->
      (forall p, exists p', port_reset_input_buffer p = inr p') ->
      exists st', scan_raising port = Finished st').
Proof.
  unfold scan_raising.
  change (py_range (fst ADDRESS_RANGE) (snd ADDRESS_RANGE + 1))
    with [1; 2; 3; 4; 5; 6; 7; 8; 9; 10; 11; 12; 13; 14; 15; 16].
  set (st0 := {| ser := port; discovered_pumps := []; log := [] |}).
  assert (Hrange : Forall (fun a => 1 <= a <= 16)
                     [1; 2; 3; 4; 5; 6; 7; 8; 9; 10; 11; 12; 13; 14; 15; 16]).
  { repeat (constructor; [lia|]). constructor. }
  split; [|split].
  - destruct (for_each_raising_adds_well_formed
                [1; 2; 3; 4; 5; 6; 7; 8; 9; 10; 11; 12; 13; 14; 15; 16] st0)
      as (new & Hd & Hsub & Hwf).
    cbn [discovered_pumps st0 app] in Hd. rewrite Hd.
    split; [exact Hwf|]. split; [exact Hsub|]. split.
    + refine (sublist_NoDup _ _ _ Hsub).
      apply (bool_decide_unpack _). by vm_compute.
    + apply sublist_length in Hsub. rewrite length_fmap in Hsub. exact Hsub.
  - intros e st'. by apply for_each_raising_aborts.
  - by apply for_each_raising_finishes.
Qed.

(** An address outside [1, 16] in the range ends the loop there by
    the invalid-id error of [build_status_command]. When the addresses
    before it have been probed to the end, leaving the state [st1], the
    loop is left in [st1] with the one log line that announces the
    invalid address: nothing is written to the port for it, and the
    addresses after it are not probed, whatever they are. *)
Theorem for_each_aborts_at_invalid (before after : list Z) (a : Z)
    (st st1 : ScanState P) :
  for_each_raising before st = Finished st1 ->
  ~ (1 <= a <= 16) ->
  for_each_raising (before ++ a :: after) st
  = Aborted (CodecError (InvalidPumpId a)) (emit [LogTesting a] st1).
Proof.
  intros Hbefore Hout. revert st Hbefore.
  induction before as [|x rest IH]; intros st; cbn [app for_each_raising].
  - intros [= ->]. by rewrite (probe_raising_invalid _ _ Hout).
  - destruct (probe_raising st x) as [st2|e st2]; [apply IH|discriminate].
Qed.

End RaisingScanProbes.

(** A port that dies after two writes ends the scan at the third
    address: the exception of [write] leaves the loop, with no pump
    found and the request for address 3 as the last line of the log. *)
Example scan_aborts_when_port_dies :
  exists st',
    Scanner.scan_raising {| Scanner.writes_left := 2 |}
    = Scanner.Aborted (Scanner.PortError "write failed") st'
    /\ Scanner.discovered_pumps st' = []
    /\ last (Scanner.log st') = Some (Scanner.LogSending 3).
Proof. eexists. split; [reflexivity|]. split; reflexivity. Qed.

Lemma for_each_aborts_at_17 :
  Scanner.for_each_raising [15; 16]
    {| Scanner.ser := Scanner.loopback_bus;
       Scanner.discovered_pumps := []; Scanner.log := [] |}
  = Scanner.Finished
      (Scanner.reached
         (Scanner.for_each_raising [15; 16]
            {| Scanner.ser := Scanner.loopback_bus;
               Scanner.discovered_pumps := []; Scanner.log := [] |}))
  /\ Scanner.discovered_pumps
       (Scanner.reached
          (Scanner.for_each_raising [15; 16]
             {| Scanner.ser := Scanner.loopback_bus;
                Scanner.discovered_pumps := []; Scanner.log := [] |}))
     = [{| Scanner.address := 15; Scanner.status := Scanner.DATA_ERROR;
           Scanner.status_code := 0; Scanner.response_raw := [x0f] |};
        {| Scanner.address := 16; Scanner.status := Scanner.DATA_ERROR;
           Scanner.status_code := 0; Scanner.response_raw := [x00] |}]
  /\ Scanner.for_each_raising ([15; 16] ++ 17 :: [18])
       {| Scanner.ser := Scanner.loopback_bus;
          Scanner.discovered_pumps := []; Scanner.log := [] |}
     = Scanner.Aborted (Scanner.CodecError (InvalidPumpId 17))
         (Scanner.emit [Scanner.LogTesting 17]
            (Scanner.reached
               (Scanner.for_each_raising [15; 16]
                  {| Scanner.ser := Scanner.loopback_bus;
                     Scanner.discovered_pumps := []; Scanner.log := [] |}))).
Proof.
  split; [reflexivity|]. split; [reflexivity|].
  refine (for_each_aborts_at_invalid [15; 16] [18] 17 _ _ _ _).
  - reflexivity.
  - lia.
Defined.

(** ** Scanner: the hexadecimal log format *)

Section HexFormat.
Import Scanner.

Example format_hex_bytes_samples :
  map format_hex_bytes [[]; [x05]; [x85; x0a; xff]]
  = [""; "05"; "85 0A FF"]%string.
Proof. reflexivity. Qed.

Lemma hex_digit_code (d : Z) :
  0 <= d < 16 ->
  Z.of_N (N_of_ascii (hex_digit d)) = if d <? 10 then 48 + d else 55 + d.
Proof.
  intros Hd. unfold hex_digit.
  rewrite N_ascii_embedding by (destruct (Z.ltb_spec d 10); lia).
  destruct (Z.ltb_spec d 10); lia.
Qed.

Lemma hex_digit_inj (d1 d2 : Z) :
  0 <= d1 < 16 -> 0 <= d2 < 16 -> hex_digit d1 = hex_digit d2 -> d1 = d2.
Proof.
  intros H1 H2 E.
  apply (f_equal (fun c => Z.of_N (N_of_ascii c))) in E.
  rewrite !hex_digit_code in E by assumption.
  destruct (Z.ltb_spec d1 10), (Z.ltb_spec d2 10); lia.
Qed.

Lemma int_of_byte_inj (b1 b2 : byte) : int_of_byte b1 = int_of_byte b2 -> b1 = b2.
Proof.
  unfold int_of_byte. intros E. apply N2Z.inj in E.
  pose proof (Byte.of_to_N b1) as H1. rewrite E, Byte.of_to_N in H1.
  congruence.
Qed.

Lemma format_02X_inj (b1 b2 : byte) : format_02X b1 = format_02X b2 -> b1 = b2.
Proof.
  unfold format_02X. cbn zeta. intros [= Eh El].
  pose proof (int_of_byte_range b1) as R1.
  pose proof (int_of_byte_range b2) as R2.
  set (w1 := int_of_byte b1) in *. set (w2 := int_of_byte b2) in *.
  pose proof (Z.mod_pos_bound w1 16 ltac:(lia)).
  pose proof (Z.mod_pos_bound w2 16 ltac:(lia)).
  assert (0 <= w1 / 16 < 16)
    by (split; [apply Z.div_pos; lia|apply Z.div_lt_upper_bound; lia]).
  assert (0 <= w2 / 16 < 16)
    by (split; [apply Z.div_pos; lia|apply Z.div_lt_upper_bound; lia]).
  apply hex_digit_inj in Eh; [|assumption..].
  apply hex_digit_inj in El; [|assumption..].
  apply int_of_byte_inj. fold w1 w2.
  rewrite (Z.div_mod w1 16), (Z.div_mod w2 16) by lia. congruence.
Qed.

Lemma format_hex_bytes_cons (b : byte) (rest : list byte) :
  format_hex_bytes (b :: rest)
  = String (hex_digit (int_of_byte b / 16))
      (String (hex_digit (int_of_byte b mod 16))
         match rest with
         | [] => EmptyString
         | _ :: _ => String " " (format_hex_bytes rest)
         end).
Proof. destruct rest; reflexivity. Qed.

(** The text logged for a byte string has two hexadecimal digits per
    byte and one space between bytes: [3 * len(data) - 1] characters,
    none for the empty string. *)
Theorem format_hex_bytes_length (data : list byte) :
  String.length (format_hex_bytes data) = (3 * length data - 1)%nat.
Proof.
  induction data as [|b rest IH]; [reflexivity|].
  rewrite format_hex_bytes_cons. cbn [String.length length].
  destruct rest as [|b' rest']; [reflexivity|].
  cbn [String.length]. rewrite IH. cbn [length]. lia.
Qed.

(** The text logged for a byte string names it: two byte strings with
    the same text are the same. *)
Theorem format_hex_bytes_inj (data1 data2 : list byte) :
  format_hex_bytes data1 = format_hex_bytes data2 -> data1 = data2.
Proof.
  revert data2. induction data1 as [|b1 rest1 IH]; intros [|b2 rest2] E.
  - reflexivity.
  - rewrite format_hex_bytes_cons in E. discriminate E.
  - rewrite format_hex_bytes_cons in E. discriminate E.
  - rewrite !format_hex_bytes_cons in E. injection E as Eh El Erest.
    assert (b1 = b2) as ->.
    { apply format_02X_inj. unfold format_02X. cbn zeta. by rewrite Eh, El. }
    f_equal. apply IH.
    destruct rest1 as [|c1 r1], rest2 as [|c2 r2]; try discriminate Erest.
    + reflexivity.
    + by injection Erest.
Qed.

End HexFormat.

Lemma format_hex_bytes_inj_at_85 : [x85; x0a] = [x85; x0a].
Proof.
  exact (format_hex_bytes_inj [x85; x0a] [x85; x0a] eq_refl).
Defined.

(** ** Hub: the registry *)

Section HubRegistry.
Import WsPumps.
Context {Msg : Type}.
Implicit Types (send_json : WebSocket -> Msg -> option SendError).
Implicit Types (h : Hub) (msg : Msg) (ws : WebSocket).

Lemma hub_eq h1 h2 : clients h1 = clients h2 -> h1 = h2.
Proof. destruct h1, h2. cbn. by intros ->. Qed.

(** [disconnect] removes every registration of the subscriber and keeps
    the others in their order; it changes nothing when the subscriber
    is not registered, so it can be repeated; two disconnections can be
    done in either order. *)
Theorem disconnect_idempotent ws ws' h :
  (ws ∉ clients (disconnect ws h))
  /\ (forall c, c ≠ ws -> (c ∈ clients (disconnect ws h) <-> c ∈ clients h))
  /\ clients (disconnect ws h) `sublist_of` clients h
  /\ (ws ∉ clients h -> disconnect ws h = h)
  /\ disconnect ws (disconnect ws h) = disconnect ws h
  /\ disconnect ws (disconnect ws' h) = disconnect ws' (disconnect ws h).
Proof.
  unfold disconnect. cbn [clients].
  split; [rewrite list_elem_of_filter; tauto|].
  split; [intros c Hc; rewrite list_elem_of_filter; tauto|].
  split; [apply sublist_filter|].
  split.
  - intros Hnot. apply hub_eq. cbn [clients].
    apply filter_all. intros c Hc ->. contradiction.
  - split; apply hub_eq; cbn [clients]; rewrite !list_filter_filter;
      apply list_filter_iff; tauto.
Qed.

(** [connect] registers the subscriber last; disconnecting a subscriber
    that was not registered before its connection gives the registry
    back, and a subscriber connected twice is registered twice until one
    disconnection removes both registrations. *)
Theorem connect_then_disconnect ws h :
  clients (connect ws h) = clients h ++ [ws]
  /\ (ws ∉ clients h -> disconnect ws (connect ws h) = h)
  /\ disconnect ws (connect ws (connect ws h)) = disconnect ws h
  /\ length (filter (fun c => c = ws) (clients (connect ws (connect ws h))))
     = S (S (length (filter (fun c => c = ws) (clients h)))).
Proof.
  unfold connect, disconnect. cbn [clients].
  split; [reflexivity|]. split; [|split].
  - intros Hnot. apply hub_eq. cbn [clients].
    rewrite filter_app, filter_cons_False, filter_nil by tauto.
    rewrite app_nil_r. apply filter_all. intros c Hc ->. contradiction.
  - apply hub_eq. cbn [clients].
    rewrite !filter_app, !filter_cons_False, !filter_nil by tauto.
    by rewrite !app_nil_r.
  - rewrite !filter_app, !filter_cons_True, !filter_nil by done.
    rewrite !length_app. cbn [length]. lia.
Qed.

Lemma deliveries_count send_json msg ws (l : list WebSocket) :
  length (filter (fun d : WebSocket * Msg => d.1 = ws)
            ((fun c => (c, msg)) <$> filter (fun c => send_json c msg = None) l))
  = if decide (send_json ws msg = None)
    then length (filter (fun c => c = ws) l) else 0%nat.
Proof.
  induction l as [|c rest IH]; [by destruct (decide _)|].
  rewrite !filter_cons.
  destruct (decide (send_json c msg = None)) as [Hok|Hfail].
  - cbn [fmap list_fmap]. rewrite filter_cons. cbn [fst].
    destruct (decide (c = ws)) as [->|Hne].
    + cbn [length]. rewrite IH.
      destruct (decide (send_json ws msg = None)); [reflexivity|contradiction].
    + rewrite IH. reflexivity.
  - rewrite IH. destruct (decide (c = ws)) as [->|Hne]; [|reflexivity].
    destruct (decide (send_json ws msg = None)); [contradiction|reflexivity].
Qed.

(** A subscriber is sent the message once for each of its
    registrations when its send does not raise, and not at all when it
    does; every delivery carries the message that was broadcast. *)
Theorem broadcast_once_per_registration send_json h msg ws :
  length (filter (fun d : WebSocket * Msg => d.1 = ws)
            (deliveries (broadcast send_json h msg)))
  = (if decide (send_json ws msg = None)
     then length (filter (fun c => c = ws) (clients h)) else 0%nat)
  /\ Forall (fun d => d.2 = msg) (deliveries (broadcast send_json h msg)).
Proof.
  destruct (broadcast_result send_json h msg) as (_ & -> & _).
  split; [apply deliveries_count|].
  apply Forall_fmap, Forall_forall. by intros c _.
Qed.

(** A broadcast only ever shrinks the registry: what is left is a
    sublist of what was there, and holds one entry per delivery. When no
    send raises the hub is unchanged; when every send raises the
    registry is emptied and nothing is delivered. *)
Theorem broadcast_shrinks_registry send_json h msg :
  clients (hub_after (broadcast send_json h msg)) `sublist_of` clients h
  /\ length (deliveries (broadcast send_json h msg))
     = length (clients (hub_after (broadcast send_json h msg)))
  /\ (Forall (fun c => send_json c msg = None) (clients h) ->
      hub_after (broadcast send_json h msg) = h)
  /\ (Forall (fun c => send_json c msg <> None) (clients h) ->
      clients (hub_after (broadcast send_json h msg)) = []
      /\ deliveries (broadcast send_json h msg) = []).
Proof.
  destruct (broadcast_result send_json h msg) as (_ & -> & Hc).
  rewrite Hc.
  split; [apply sublist_filter|]. split; [by rewrite length_fmap|]. split.
  - intros Hall. apply hub_eq. rewrite Hc. apply filter_all.
    by apply Forall_forall.
  - intros Hall.
    assert (Hnil : filter (fun c => send_json c msg = None) (clients h) = []).
    { clear Hc. induction Hall as [|c rest Hc' _ IH]; [reflexivity|].
      by rewrite filter_cons_False. }
    by rewrite Hnil.
Qed.

(** Broadcasting again, to subscribers that behave as they did, changes
    nothing more: the registry left by the first broadcast is left as it
    is by the second, which delivers to all of it. *)
Theorem broadcast_again_is_stable send_json h msg :
  hub_after (broadcast send_json (hub_after (broadcast send_json h msg)) msg)
  = hub_after (broadcast send_json h msg)
  /\ deliveries (broadcast send_json (hub_after (broadcast send_json h msg)) msg)
     = deliveries (broadcast send_json h msg)
  /\ fst <$> deliveries (broadcast send_json h msg)
     = clients (hub_after (broadcast send_json h msg)).
Proof.
  destruct (broadcast_result send_json h msg) as (_ & Hd & Hc).
  destruct (broadcast_result send_json (hub_after (broadcast send_json h msg)) msg)
    as (_ & Hd' & Hc').
  rewrite Hc in Hd', Hc'.
  assert (Hff : filter (fun c => send_json c msg = None)
                  (filter (fun c => send_json c msg = None) (clients h))
                = filter (fun c => send_json c msg = None) (clients h)).
  { rewrite list_filter_filter. apply list_filter_iff. tauto. }
  rewrite Hff in Hd', Hc'.
  split; [apply hub_eq; congruence|]. split; [congruence|].
  rewrite Hd, Hc, <- list_fmap_compose. apply list_fmap_id.
Qed.

End HubRegistry.

(** ** Price repair, again *)

Section PriceRepairAgain.
Import WsPumps.

Lemma fix_price_of_int (z : Z) :
  fix_price (Some (of_int z))
  = Some (if decide (9999 < z /\ z mod 10 = 0 /\ 1000 <= z / 10 <= 9999)
          then z / 10 else z).
Proof.
  unfold fix_price. rewrite py_round_int_of_int.
  destruct (decide _) as [(Hgt & Hmod & Hlo & Hhi)|Hno].
  - replace (z >? 9999) with true by (symmetry; apply Z.gtb_lt; lia).
    rewrite Hmod. cbn [Z.eqb andb].
    replace (1000 <=? z / 10) with true by (symmetry; apply Z.leb_le; lia).
    replace (z / 10 <=? 9999) with true by (symmetry; apply Z.leb_le; lia).
    reflexivity.
  - destruct (_ && _) eqn:E; [|reflexivity].
    exfalso. apply Hno.
    apply andb_prop in E as [E E3]. apply andb_prop in E as [E1 E2].
    apply andb_prop in E3 as [E3 E4].
    apply Z.gtb_lt in E1. apply Z.eqb_eq in E2.
    apply Z.leb_le in E3. apply Z.leb_le in E4. lia.
Qed.

Lemma fix_price_rounds (v : Qc) :
  fix_price (Some v) = fix_price (Some (of_int (py_round_int v))).
Proof. unfold fix_price. by rewrite py_round_int_of_int. Qed.

(** A repaired price is not repaired again: [fix_price] applied to its
    own result gives that result. A price it divided by 10 lies in
    [1000, 9999], and a result above 9999 is a price it left alone. *)
Theorem fix_price_idempotent (ppu : option Qc) :
  fix_price (of_int <$> fix_price ppu) = fix_price ppu
  /\ (forall r, fix_price ppu = Some r ->
        exists v, ppu = Some v
          /\ (r = py_round_int v
              \/ (py_round_int v = 10 * r /\ 1000 <= r <= 9999)))
  /\ (fix_price ppu = None <-> ppu = None).
Proof.
  destruct ppu as [v|]; [|split; [reflexivity|split; [discriminate|done]]].
  rewrite fix_price_rounds, fix_price_of_int.
  set (p := py_round_int v).
  cbn [fmap option_fmap option_map]. rewrite fix_price_of_int.
  split; [|split; [|split; discriminate]].
  - f_equal.
    destruct (decide (9999 < p /\ p mod 10 = 0 /\ 1000 <= p / 10 <= 9999))
      as [(Hgt & Hmod & Hlo & Hhi)|Hno].
    + rewrite decide_False; [reflexivity|]. lia.
    + rewrite decide_False; [reflexivity|]. exact Hno.
  - intros r [= <-]. exists v. split; [reflexivity|].
    destruct (decide _) as [(Hgt & Hmod & Hlo & Hhi)|Hno]; [|by left].
    right. split; [|lia].
    pose proof (Z.div_mod p 10 ltac:(lia)). lia.
Qed.

Lemma this_minus (a b : Qc) : (this (a - b)%Qc == this a - this b)%Q.
Proof. unfold Qcminus, Qcplus, Qcopp. cbn. rewrite !Qred_correct. reflexivity. Qed.

Lemma this_half : (this (num 0.5) == 1 # 2)%Q.
Proof. reflexivity. Qed.

(** [round] gives a nearest integer: it is within one half of its
    argument, on either side. *)
Lemma py_round_int_nearest (v : Qc) :
  (of_int (py_round_int v) - v <= num 0.5)%Qc
  /\ (v - of_int (py_round_int v) <= num 0.5)%Qc.
Proof.
  unfold Qcle. rewrite !this_minus, !of_int_this, this_half.
  unfold py_round_int.
  pose proof (Qfloor_le v) as Hlo. pose proof (Qlt_floor v) as Hhi.
  set (f := Qfloor v) in *.
  rewrite inject_Z_plus in Hhi. change (inject_Z 1) with 1%Q in Hhi.
  unfold Qccompare.
  destruct (Qcompare_spec (this (v - Q2Qc (inject_Z f))%Qc) (this (num 0.5)))
    as [E|E|E];
    fold (of_int f) in E; rewrite this_minus, of_int_this, this_half in E.
  - destruct (Z.even f); rewrite ?inject_Z_plus;
      change (inject_Z 1) with 1%Q; lra.
  - lra.
  - rewrite inject_Z_plus. change (inject_Z 1) with 1%Q. lra.
Qed.

(** What [fix_price] returns for a price is an integer within one half
    of it, or the exact tenth of such an integer when that tenth lies in
    [1000, 9999]: the price is changed by rounding and by the division
    by ten, and by nothing else. *)
Theorem fix_price_stays_near (v : Qc) :
  let p := py_round_int v in
  (of_int p - v <= num 0.5)%Qc
  /\ (v - of_int p <= num 0.5)%Qc
  /\ (fix_price (Some v) = Some p
      \/ (fix_price (Some v) = Some (p / 10)
          /\ 10 * (p / 10) = p /\ 1000 <= p / 10 <= 9999)).
Proof.
  intros p. destruct (py_round_int_nearest v) as [H1 H2].
  split; [exact H1|]. split; [exact H2|].
  rewrite fix_price_rounds, fix_price_of_int. fold p.
  destruct (decide _) as [(Hgt & Hmod & Hlo & Hhi)|Hno]; [|by left].
  right. split; [reflexivity|]. split; [|lia].
  pose proof (Z.div_mod p 10 ltac:(lia)). lia.
Qed.

End PriceRepairAgain.

(** ** Aggregator: what one pass does to the caches and the item *)

Section AggregatorPass.
Import Models WsPumps.


Lemma process_pump_complete (pid : Z) (r : PumpRead) (c : Caches) (t : TransactionData) :
  status (st r) = COMPLETE \/ status (st r) = IDLE ->
  complete_tx r = Some t ->
  process_pump pid r c
  = (set_meta
       <[pid := {| price_per_unit := fix_price (tx_price_per_unit t);
                   grade := tx_grade t |}]>
       (set_last_tx <[pid := txd_of t]> (refresh_meta pid (meta_tx r) c)),
     {| base := st r; realtime := None; transaction := Some (txd_of t) |}).
Proof.
  intros Hst Htx. unfold process_pump.
  destruct (decide (status (st r) = DISPENSING)) as [E|_];
    [destruct Hst as [Hst|Hst]; congruence|].
  destruct (decide (status (st r) = COMPLETE \/ status (st r) = IDLE));
    [|contradiction].
  by rewrite Htx.
Qed.

Lemma process_pump_idle (pid : Z) (r : PumpRead) (c : Caches) :
  status (st r) <> DISPENSING ->
  ~ ((status (st r) = COMPLETE \/ status (st r) = IDLE) /\ is_Some (complete_tx r)) ->
  process_pump pid r c
  = (refresh_meta pid (meta_tx r) c,
     {| base := st r; realtime := None; transaction := None |}).
Proof.
  intros Hst Hno. unfold process_pump.
  destruct (decide (status (st r) = DISPENSING)); [contradiction|].
  destruct (decide (status (st r) = COMPLETE \/ status (st r) = IDLE)) as [Hc|_];
    [|reflexivity].
  destruct (complete_tx r) as [t|]; [|reflexivity].
  exfalso. apply Hno. split; [exact Hc|by eexists].
Qed.




(** A DISPENSING pump whose price is not usable (no meta entry, no
    price in it, or a price that is zero or negative) is reported with
    the cached live value read as a volume: [volume = round(live, 3)]
    and no [total_amount]. For the live value 3.5 the volume is 3.5. *)
Theorem realtime_without_usable_price (pid : Z) (r : PumpRead) (c : Caches) (lv : Qc) :
  status (st r) = DISPENSING ->
  ~ (exists p, meta (refresh_meta pid (meta_tx r) c) !! pid ≫= price_per_unit = Some p
               /\ 0 < p) ->
  last_live (read_live pid (live r) c) !! pid = Some lv ->
  (exists rt,
     realtime (process_pump pid r c).2 = Some rt
     /\ rt_total_amount rt = None
     /\ rt_volume rt = Some (py_round lv 3))
  /\ py_round (num 3.5) 3 = num 3.5.
Proof.
  intros Hst Hprice Hlv.
  split; [|apply qc_eq; by vm_compute].
  rewrite process_pump_dispensing by exact Hst. cbn [snd realtime].
  eexists. split; [reflexivity|].
  pose proof (proj1 (refresh_meta_keeps pid (meta_tx r) c)) as Hll.
  set (c0 := refresh_meta pid (meta_tx r) c) in *.
  assert (Hlv' : last_live (read_live pid (live r) c0) !! pid = Some lv).
  { rewrite read_live_last_live in *. by rewrite Hll. }
  unfold realtime_of. rewrite Hlv'.
  rewrite (proj1 (read_live_keeps pid (live r) c0)).
  destruct (meta c0 !! pid ≫= price_per_unit) as [p|] eqn:Hp; [|done].
  cbn [truthy_int]. destruct (Z.eqb_spec p 0) as [->|Hp0]; [done|].
  cbn [negb fmap option_fmap option_map].
  destruct (Z.eqb_spec (p * 10) 0) as [?|_]; [lia|].
  destruct (Z.gtb_spec (p * 10) 0) as [Hpos|_]; [|done].
  exfalso. apply Hprice. exists p. split; [reflexivity|lia].
Qed.

Lemma realtime_without_usable_price_pump_4 :
  let c := {| meta := ∅; last_live := ∅; last_tx := ∅ |} in
  let r := {| st := {| pump_id := 4; status := DISPENSING;
                       last_updated := "2025-07-09T20:13:43.943853";
                       error_message := None;
                       raw_status_code := Some "0x9";
                       wire_format := Some "0x94" |}%string;
              meta_tx := None; live := LiveValue (Some (num 3.5));
              rt_now := "2025-07-09T15:13:43.099591+00:00"%string;
              complete_tx := None |} in
  exists rt,
    realtime (process_pump 4 r c).2 = Some rt
    /\ rt_total_amount rt = None
    /\ rt_volume rt = Some (py_round (num 3.5) 3).
Proof.
  intros c r.
  refine (proj1 (realtime_without_usable_price 4 r c (num 3.5) _ _ _)).
  - reflexivity.
  - intros (p & Hp & _). discriminate Hp.
  - reflexivity.
Defined.

(** A DISPENSING pump with no cached live value, whose read raises or
    gives [None], is reported with neither [total_amount] nor [volume],
    and the pass leaves [last_live] and [last_tx] as they were. This is
    every DISPENSING pass of the source as it stands, whose read always
    raises, from empty caches. *)
Theorem realtime_without_live_value (pid : Z) (r : PumpRead) (c : Caches) :
  status (st r) = DISPENSING ->
  live r = LiveRaises \/ live r = LiveValue None ->
  last_live c !! pid = None ->
  (exists rt,
     realtime (process_pump pid r c).2 = Some rt
     /\ rt_total_amount rt = None /\ rt_volume rt = None)
  /\ last_live (process_pump pid r c).1 = last_live c
  /\ last_tx (process_pump pid r c).1 = last_tx c.
Proof.
  intros Hst Hlive Hnone.
  rewrite process_pump_dispensing by exact Hst. cbn [fst snd realtime].
  destruct (refresh_meta_keeps pid (meta_tx r) c) as [Hll Htx].
  set (c0 := refresh_meta pid (meta_tx r) c) in *.
  assert (Hc1 : read_live pid (live r) c0 = c0) by (by destruct Hlive as [-> | ->]).
  rewrite Hc1.
  assert (Hnone' : last_live c0 !! pid = None) by (by rewrite Hll).
  split; [|split].
  - eexists. split; [reflexivity|].
    unfold realtime_of. rewrite Hnone'.
    by destruct (if truthy_int _ then _ else _).
  - by rewrite (proj2 (reset_on_zero_keeps pid c0)).
  - rewrite reset_on_zero_last_tx, Hnone'. by rewrite decide_False.
Qed.

Lemma realtime_without_live_value_pump_4 :
  let c := {| meta := ∅; last_live := ∅; last_tx := ∅ |} in
  let r := {| st := {| pump_id := 4; status := DISPENSING;
                       last_updated := "2025-07-09T20:13:43.943853";
                       error_message := None;
                       raw_status_code := Some "0x9";
                       wire_format := Some "0x94" |}%string;
              meta_tx := None; live := LiveRaises;
              rt_now := "2025-07-09T15:13:43.099591+00:00"%string;
              complete_tx := None |} in
  (exists rt,
     realtime (process_pump 4 r c).2 = Some rt
     /\ rt_total_amount rt = None /\ rt_volume rt = None)
  /\ last_live (process_pump 4 r c).1 = last_live c
  /\ last_tx (process_pump 4 r c).1 = last_tx c.
Proof.
  intros c r.
  refine (realtime_without_live_value 4 r c _ _ _).
  - reflexivity.
  - left. reflexivity.
  - reflexivity.
Defined.

(** A transaction read for a COMPLETE or IDLE pump is cached as the
    pump's [LastTransaction] and replaces its meta entry, known or not,
    by the repaired price and the grade of the transaction: after the
    pass the price of the meta entry is the price of the cached
    transaction. *)
Theorem completed_transaction_is_cached (pid : Z) (r : PumpRead) (c : Caches)
    (t : TransactionData) :
  status (st r) = COMPLETE \/ status (st r) = IDLE ->
  complete_tx r = Some t ->
  last_tx (process_pump pid r c).1 !! pid = Some (txd_of t)
  /\ meta (process_pump pid r c).1 !! pid
     = Some {| price_per_unit := fix_price (tx_price_per_unit t);
               grade := tx_grade t |}
  /\ (meta (process_pump pid r c).1 !! pid ≫= price_per_unit)
     = (last_tx (process_pump pid r c).1 !! pid ≫= txd_price_per_unit)
  /\ transaction (process_pump pid r c).2 = Some (txd_of t).
Proof.
  intros Hst Htx. rewrite (process_pump_complete _ _ _ t Hst Htx).
  cbn. rewrite !lookup_insert_eq. done.
Qed.

Lemma completed_transaction_is_cached_pump_1 :
  let t := {| tx_pump_id := 1; tx_volume := Some (num 30.0);
              tx_price_per_unit := Some (num 81500);
              tx_total_amount := Some (num 244500.0);
              tx_grade := Some 0;
              tx_timestamp := "2025-07-09T20:13:44.444872"%string |} in
  let c := {| meta := {[1 := {| price_per_unit := Some 7000; grade := Some 1 |}]};
              last_live := ∅; last_tx := ∅ |} in
  let r := {| st := {| pump_id := 1; status := IDLE;
                       last_updated := "2025-07-09T20:13:43.307955";
                       error_message := None;
                       raw_status_code := Some "0x6";
                       wire_format := Some "0x61" |}%string;
              meta_tx := None; live := LiveRaises;
              rt_now := "2025-07-09T15:13:43.099591+00:00"%string;
              complete_tx := Some t |} in
  last_tx (process_pump 1 r c).1 !! 1 = Some (txd_of t)
  /\ meta (process_pump 1 r c).1 !! 1
     = Some {| price_per_unit := fix_price (tx_price_per_unit t);
               grade := tx_grade t |}
  /\ (meta (process_pump 1 r c).1 !! 1 ≫= price_per_unit)
     = (last_tx (process_pump 1 r c).1 !! 1 ≫= txd_price_per_unit)
  /\ transaction (process_pump 1 r c).2 = Some (txd_of t).
Proof.
  intros t c r.
  refine (completed_transaction_is_cached 1 r c t _ _).
  - right. reflexivity.
  - reflexivity.
Defined.

(** The cache [last_tx] is written and cleared but never read: the item
    of a pass and the [meta] and [last_live] it leaves are the same
    whatever [last_tx] held before. *)
Theorem last_tx_is_never_read (pid : Z) (r : PumpRead) (c : Caches)
    (other : gmap Z Transaction) :
  let c2 := set_last_tx (fun _ => other) c in
  (process_pump pid r c2).2 = (process_pump pid r c).2
  /\ meta (process_pump pid r c2).1 = meta (process_pump pid r c).1
  /\ last_live (process_pump pid r c2).1 = last_live (process_pump pid r c).1.
Proof.
  intros c2.
  assert (Hrefresh : refresh_meta pid (meta_tx r) c2
                     = set_last_tx (fun _ => other) (refresh_meta pid (meta_tx r) c)).
  { unfold refresh_meta, c2. cbn [meta set_last_tx].
    destruct (meta c !! pid); [done|].
    destruct (meta_tx r) as [t|]; [|done].
    by destruct (truthy_float (tx_price_per_unit t)). }
  set (c0 := refresh_meta pid (meta_tx r) c) in *.
  assert (Hread : read_live pid (live r) (set_last_tx (fun _ => other) c0)
                  = set_last_tx (fun _ => other) (read_live pid (live r) c0))
    by (by destruct (live r) as [|[v|]]).
  destruct (decide (status (st r) = DISPENSING)) as [Hd|Hd].
  - rewrite !process_pump_dispensing by exact Hd. cbn zeta. fold c0.
    rewrite Hrefresh, Hread. cbn [fst snd].
    set (c1 := read_live pid (live r) c0).
    split; [reflexivity|].
    destruct (reset_on_zero_keeps pid c1) as [-> ->].
    by destruct (reset_on_zero_keeps pid (set_last_tx (fun _ => other) c1))
      as [-> ->].
  - destruct (decide ((status (st r) = COMPLETE \/ status (st r) = IDLE)
                      /\ is_Some (complete_tx r))) as [[Hc [t Ht]]|Hno].
    + rewrite !(process_pump_complete _ _ _ t Hc Ht). fold c0.
      by rewrite Hrefresh.
    + rewrite !process_pump_idle by assumption. fold c0. by rewrite Hrefresh.
Qed.

Lemma refresh_meta_dom (pid : Z) (tx : option TransactionData) (c : Caches) :
  dom (meta c) ⊆ dom (meta (refresh_meta pid tx c)).
Proof.
  unfold refresh_meta.
  destruct (meta c !! pid); [done|].
  destruct tx as [t|]; [|done].
  destruct (truthy_float (tx_price_per_unit t)); [|done].
  cbn [set_meta meta]. rewrite dom_insert_L. apply union_subseteq_r.
Qed.

(** A meta entry, once known, is changed only by a transaction read for
    a COMPLETE or IDLE pump: a DISPENSING pass, and a pass with no such
    transaction, leave it as it was. No pass removes a meta entry,
    whatever the status and the reads: every pump with an entry before
    the pass has one after it. *)
Theorem meta_kept_until_transaction (pid : Z) (r : PumpRead) (c : Caches) :
  (forall m,
     meta c !! pid = Some m ->
     status (st r) = DISPENSING \/ complete_tx r = None ->
     meta (process_pump pid r c).1 !! pid = Some m)
  /\ dom (meta c) ⊆ dom (meta (process_pump pid r c).1).
Proof.
  split.
  - intros m Hm Hcase.
    destruct (decide (status (st r) = DISPENSING)) as [Hd|Hd].
    + rewrite process_pump_dispensing by exact Hd. cbn [fst].
      rewrite (proj1 (reset_on_zero_keeps _ _)), (proj1 (read_live_keeps _ _ _)).
      by rewrite (refresh_meta_known _ _ _ _ Hm).
    + destruct Hcase as [?|Hno]; [contradiction|].
      rewrite process_pump_idle; [|exact Hd|].
      * cbn [fst]. by rewrite (refresh_meta_known _ _ _ _ Hm).
      * rewrite Hno. intros [_ [x Hx]]. discriminate.
  - pose proof (refresh_meta_dom pid (meta_tx r) c) as Hdom.
    destruct (decide (status (st r) = DISPENSING)) as [Hd|Hd].
    + rewrite process_pump_dispensing by exact Hd. cbn [fst].
      by rewrite (proj1 (reset_on_zero_keeps _ _)), (proj1 (read_live_keeps _ _ _)).
    + destruct (decide ((status (st r) = COMPLETE \/ status (st r) = IDLE)
                        /\ is_Some (complete_tx r))) as [[Hc [t Ht]]|Hno].
      * rewrite (process_pump_complete _ _ _ t Hc Ht).
        cbn [fst set_meta set_last_tx meta]. rewrite dom_insert_L.
        etrans; [exact Hdom|apply union_subseteq_r].
      * by rewrite process_pump_idle.
Qed.





(** The price learned from a completed sale is the one used for the
    next sale of the pump: after a pass that read a transaction with the
    repaired price [p > 0], a DISPENSING pass that reads the live value
    [v] reports the tenfold price, the float product
    [total_amount = round(v, 2) * 1000] and the volume
    [round(total_amount / (p * 10), 3)] of the float quotient; the
    transaction stays cached unless [v] is 0. The live value and the
    price are taken below [2 ^ 1000], where no float operation
    overflows. *)
Theorem learned_price_is_used (pid : Z) (r1 r2 : PumpRead) (c : Caches)
    (t : TransactionData) (p : Z) (v : Qc) :
  status (st r1) = COMPLETE \/ status (st r1) = IDLE ->
  complete_tx r1 = Some t ->
  fix_price (tx_price_per_unit t) = Some p -> 0 < p < 2 ^ 1000 ->
  status (st r2) = DISPENSING ->
  live r2 = LiveValue (Some v) ->
  (- pow2 1000 <= v)%Qc -> (v <= pow2 1000)%Qc ->
  let c1 := (process_pump pid r1 c).1 in
  let total_amount := fmul (round_float v 2) (float_of_int 1000) in
  realtime (process_pump pid r2 c1).2
  = Some {| rt_price_per_unit := Some (p * 10);
            rt_grade := tx_grade t;
            rt_timestamp := rt_now r2;
            rt_total_amount := Some total_amount;
            rt_volume :=
              Some (py_round (fdiv total_amount (float_of_int (p * 10))) 3) |}
  /\ last_tx (process_pump pid r2 c1).1 !! pid
     = (if decide (v = of_int 0) then None else Some (txd_of t)).
Proof.
  intros Hst1 Htx Hp Hpos Hst2 Hlive _ _ c1 total_amount.
  assert (Hm : meta c1 !! pid
               = Some {| price_per_unit := Some p; grade := tx_grade t |}).
  { subst c1. rewrite (process_pump_complete _ _ _ t Hst1 Htx). cbn.
    by rewrite lookup_insert_eq, Hp. }
  assert (Htx1 : last_tx c1 !! pid = Some (txd_of t)).
  { subst c1. rewrite (process_pump_complete _ _ _ t Hst1 Htx). cbn.
    by rewrite lookup_insert_eq. }
  assert (Hlv : last_live (read_live pid (live r2) c1) !! pid = Some v).
  { rewrite Hlive. cbn. by rewrite lookup_insert_eq. }
  split.
  - apply (process_pump_known_price pid r2 c1
             {| price_per_unit := Some p; grade := tx_grade t |} p v);
      (done || lia).
  - rewrite process_pump_dispensing by exact Hst2. cbn [fst].
    rewrite (refresh_meta_known _ _ _ _ Hm), reset_on_zero_last_tx, Hlv.
    rewrite (proj2 (read_live_keeps _ _ _)).
    destruct (decide (v = of_int 0)) as [->|Hne].
    + rewrite decide_True by done. by rewrite lookup_delete_eq.
    + rewrite decide_False by congruence. exact Htx1.
Qed.

Lemma learned_price_is_used_pump_1 :
  let t := {| tx_pump_id := 1; tx_volume := Some (num 30.0);
              tx_price_per_unit := Some (num 81500);
              tx_total_amount := Some (num 244500.0);
              tx_grade := Some 0;
              tx_timestamp := "2025-07-09T20:13:44.444872"%string |} in
  let c := {| meta := ∅; last_live := ∅; last_tx := ∅ |} in
  let read status l tx :=
    {| st := {| pump_id := 1; status := status;
                last_updated := "2025-07-09T20:13:43.307955";
                error_message := None;
                raw_status_code := None; wire_format := None |}%string;
       meta_tx := None; live := l;
       rt_now := "2025-07-09T15:13:43.099591+00:00"%string;
       complete_tx := tx |} in
  let r1 := read COMPLETE LiveRaises (Some t) in
  let r2 := read DISPENSING (LiveValue (Some (fl (num 2.01)))) None in
  let c1 := (process_pump 1 r1 c).1 in
  let total_amount := fmul (round_float (fl (num 2.01)) 2) (float_of_int 1000) in
  realtime (process_pump 1 r2 c1).2
  = Some {| rt_price_per_unit := Some (8150 * 10);
            rt_grade := tx_grade t;
            rt_timestamp := rt_now r2;
            rt_total_amount := Some total_amount;
            rt_volume :=
              Some (py_round (fdiv total_amount (float_of_int (8150 * 10))) 3) |}
  /\ last_tx (process_pump 1 r2 c1).1 !! 1
     = (if decide (fl (num 2.01) = of_int 0) then None else Some (txd_of t)).
Proof.
  intros t c read r1 r2.
  refine (learned_price_is_used 1 r1 r2 c t 8150 (fl (num 2.01)) _ _ _ _ _ _ _ _).
  - left. reflexivity.
  - reflexivity.
  - by vm_compute.
  - split; [lia|]. by vm_compute.
  - reflexivity.
  - reflexivity.
  - by vm_compute.
  - by vm_compute.
Defined.

End AggregatorPass.

(** ** main.py: what the endpoints answer *)

Section MainEndpoints.
Import Main.
Context {DiscoveryResult : Type}.
Implicit Types (pm : PumpManager DiscoveryResult).

(** [discover_pumps] never answers 400. With the global unbound, as in
    the source as it stands, it raises [NameError] and nothing else.
    With the global bound, whatever it raises is a 500: the 400 it
    raises for an inverted range is caught by its own handler and
    answered as a 500 that wraps it, without the manager being asked,
    and for a range in order the result of the manager is returned, or
    its exception wrapped in a 500. *)
Theorem discover_pumps_masks_400
    (pump_manager : Global (option (PumpManager DiscoveryResult)))
    (address_range_start address_range_end : Z) (timeout : Qc) :
  (forall detail,
     discover_pumps pump_manager address_range_start address_range_end timeout
     <> inl (Raises (HTTPException 400 detail)))
  /\ discover_pumps (DiscoveryResult := DiscoveryResult)
       Unbound address_range_start address_range_end timeout
     = inl (NameError "pump_manager")
  /\ (forall (value : option (PumpManager DiscoveryResult)) e,
        discover_pumps (Bound value) address_range_start address_range_end timeout
        = inl e ->
        exists detail, e = Raises (HTTPException 500 detail))
  /\ (forall pm,
        address_range_start > address_range_end ->
        discover_pumps (Bound (Some pm)) address_range_start address_range_end timeout
        = inl (Raises (HTTPException 500
                         (DiscoveryFailed (HTTPException 400 RangeInverted)))))
  /\ (forall pm,
        address_range_start <= address_range_end ->
        discover_pumps (Bound (Some pm)) address_range_start address_range_end timeout
        = match auto_discover_and_manage pm [COMPORT]
                  (address_range_start, address_range_end) timeout with
          | inr result => inr result
          | inl e => inl (Raises (HTTPException 500 (DiscoveryFailed e)))
          end).
Proof.
  assert (Hbound : forall (value : option (PumpManager DiscoveryResult)) e,
            discover_pumps (Bound value) address_range_start address_range_end timeout
            = inl e ->
            exists detail, e = Raises (HTTPException 500 detail)).
  { intros value e. unfold discover_pumps.
    destruct value as [pm|]; [|intros [= <-]; eauto].
    destruct (if _ >? _ then _ else _) as [e'|result]; intros [= <-]. eauto. }
  split; [|split; [reflexivity|split; [exact Hbound|split]]].
  - intros detail E. destruct pump_manager as [|value]; [discriminate E|].
    apply Hbound in E as [detail' E]. discriminate E.
  - intros pm Hgt. unfold discover_pumps.
    destruct (Z.gtb_spec address_range_start address_range_end); [reflexivity|lia].
  - intros pm Hle. unfold discover_pumps.
    destruct (Z.gtb_spec address_range_start address_range_end); [lia|reflexivity].
Qed.

(** [get_realtime_money] answers with the live value exactly when the
    manager gives one that is not zero: a live value of 0 is answered
    with the same 404 as no value at all. *)
Theorem get_realtime_money_zero_is_404 pm (pump_id : Z) :
  (forall data,
     get_realtime_money (Some pm) pump_id = inr data
     <-> get_realtime pm pump_id = Some (money data)
         /\ money data <> WsPumps.of_int 0 /\ rd_pump_id data = pump_id)
  /\ (get_realtime pm pump_id = None \/ get_realtime pm pump_id = Some (WsPumps.of_int 0)
      <-> get_realtime_money (Some pm) pump_id
          = inl (HTTPException 404 (NoRealtimeData pump_id))).
Proof.
  unfold get_realtime_money.
  destruct (get_realtime pm pump_id) as [v|] eqn:Hv; cbn [WsPumps.truthy_float].
  - destruct (bool_decide_reflect (v = WsPumps.of_int 0)) as [->|Hne]; cbn [negb].
    + split.
      * intros data. split; [discriminate|]. intros ([= Hm] & Hne & _). congruence.
      * split; [done|]. intros _. by right.
    + split.
      * intros [pid m]. cbn. split.
        -- intros [= <- <-]. done.
        -- intros ([= <-] & _ & ->). done.
      * split; [|discriminate]. intros [?|[= ->]]; [discriminate|contradiction].
  - split.
    + intros data. split; [discriminate|]. intros (? & _). discriminate.
    + split; [done|]. intros _. by left.
Qed.

End MainEndpoints.

Section GradeAccounting.
Import Main.

Lemma grade_loop_spec (grades_info : list GradeInfo) (result : list bool) (i : nat)
    (acc : list GradeResult) (ov : bool) :
  exists new,
    grade_loop i grades_info result acc ov
    = (acc ++ new,
       ov && forallb (grade_success_at result) (seq i (length grades_info)))
    /\ success <$> new = grade_success_at result <$> seq i (length grades_info)
    /\ grade_id <$> new = id <$> grades_info.
Proof.
  revert i acc ov. induction grades_info as [|g rest IH]; intros i acc ov.
  - exists []. cbn. by rewrite app_nil_r, andb_true_r.
  - cbn [grade_loop length seq forallb].
    destruct (IH (S i) (acc ++ [{|
                grade_id := id g; grade_title := title g; new_price := price g;
                success := grade_success_at result i;
                message := if grade_success_at result i
                           then PriceUpdatedTo (price g)
                           else FailedToUpdate (id g) |}])
                (if negb (grade_success_at result i) then false else ov))
      as (new & -> & Hs & Hid).
    eexists (_ :: new). rewrite <- app_assoc. cbn [app].
    split.
    { f_equal. destruct (grade_success_at result i), ov; reflexivity. }
    split; [by cbn; rewrite Hs|by cbn; rewrite Hid].
Qed.

Lemma py_sum_bounds (result : list bool) :
  0 <= py_sum result <= Z.of_nat (length result)
  /\ (py_sum result = Z.of_nat (length result) <-> Forall (fun b => b = true) result).
Proof.
  induction result as [|b rest [IHb IHe]]; [cbn; split; [lia|split; [constructor|done]]|].
  cbn [py_sum foldr length]. fold (py_sum rest).
  split; [destruct b; lia|].
  rewrite Forall_cons. destruct b.
  - rewrite <- IHe. split; [intros; split; [done|lia]|intros [_ ?]; lia].
  - split; [lia|]. intros [? _]. discriminate.
Qed.

Lemma forallb_success_at (result : list bool) (n : nat) :
  forallb (grade_success_at result) (seq 0 n) = true
  <-> (n <= length result)%nat /\ Forall (fun b => b = true) (take n result).
Proof.
  rewrite forallb_forall. unfold grade_success_at. split.
  - intros Hall.
    assert (Hlook : forall i, (i < n)%nat -> result !! i = Some true).
    { intros i Hi. specialize (Hall i). rewrite in_seq in Hall.
      specialize (Hall ltac:(lia)).
      destruct (result !! i) as [[]|]; cbn in Hall; congruence. }
    split.
    + destruct n as [|n']; [lia|].
      specialize (Hlook n' ltac:(lia)). apply lookup_lt_Some in Hlook. lia.
    + apply Forall_lookup. intros i b Hb.
      apply lookup_take_Some in Hb as [Hb Hi].
      rewrite (Hlook i Hi) in Hb. congruence.
  - intros [Hn Hall] i Hi. apply in_seq in Hi.
    destruct (lookup_lt_is_Some_2 result i) as [b Hb]; [lia|].
    rewrite Hb. cbn.
    eapply Forall_lookup_1 in Hall; [exact Hall|].
    apply lookup_take_Some. split; [exact Hb|lia].
Qed.

(** The figures [change_prices] reports for one pump: one result per
    grade, in order, and [successful_updates + failed_updates] is the
    number of grades; the call counts as a success exactly when the
    manager answered [True] for every grade. When the manager gives one
    answer per grade, [failed_updates] is not negative and is 0 exactly
    on success; with more [True] answers than grades it is negative. *)
Theorem grade_accounting_consistent (grades_info : list GradeInfo)
    (result : list bool) (g : GradeInfo) :
  let a := grade_accounting grades_info result in
  length (grade_results a) = length grades_info
  /\ grade_id <$> grade_results a = id <$> grades_info
  /\ successful_count a + failed_count a = Z.of_nat (length grades_info)
  /\ (overall_success a = true
      <-> (length grades_info <= length result)%nat
          /\ Forall (fun b => b = true) (take (length grades_info) result))
  /\ (length result = length grades_info ->
      0 <= failed_count a /\ (overall_success a = true <-> failed_count a = 0))
  /\ failed_count (grade_accounting [g] [true; true]) = -1.
Proof.
  intros a. subst a. unfold grade_accounting.
  destruct (grade_loop_spec grades_info result 0 [] true) as (new & -> & Hs & Hid).
  cbn [grade_results overall_success successful_count failed_count app andb].
  split; [|split; [exact Hid|split; [lia|split; [apply forallb_success_at|split; [|reflexivity]]]]].
  - apply (f_equal length) in Hid. by rewrite !length_fmap in Hid.
  - intros Hlen. destruct (py_sum_bounds result) as [Hb He].
    split; [lia|]. rewrite forallb_success_at, <- Hlen, firstn_all.
    rewrite <- He. split; [intros [_ ?]; lia|intros; split; [lia|lia]].
Qed.

End GradeAccounting.
